(** * duplicate_finder.py: a shallow embedding and its verified properties

    The program indexes image files into a MongoDB collection keyed by file
    path, groups the stored records by fingerprint, and moves redundant
    copies to a trash directory.  The embedding follows the source function
    by function.  Python's exceptions and its mutable surroundings (the
    collection, the disk, the console) are threaded through a small state and
    exception monad. *)

From stdpp Require Import base gmap sets list strings sorting pretty.
From Stdlib Require Import ZArith Lia.

(** ** Exceptions *)

(** The exception classes the program can meet.  [UnidentifiedImageError],
    [FileNotFoundError] and [FileExistsError] are subclasses of [OSError]. *)
Inductive exn :=
  | OSError
  | FileNotFoundError
  | FileExistsError
  | UnidentifiedImageError
  | DuplicateKeyError
  | AttributeError
  | KeyError
  | ValueError
  | BrokenProcessPool.

Definition is_OSError (e : exn) : bool :=
  match e with
  | OSError | FileNotFoundError | FileExistsError | UnidentifiedImageError => true
  | _ => false
  end.

Inductive outcome (A : Type) :=
  | Return (a : A)
  | Raise (e : exn).
Arguments Return {A} a.
Arguments Raise {A} e.

(** ** Data *)

(** A stored record, as [_add_to_database] builds it. *)
Record document := {
  _id : string;
  hash : string;
  file_size : Z;
  image_size : string;
  capture_time : string
}.

(** A pixel value; nothing in the program inspects it except the hash. *)
Definition pixel : Type := Z.

(** Pixel rows, top to bottom; every row runs left to right. *)
Abbreviation grid := (list (list pixel)).

(** What [img._getexif()] does on an opened image: the attribute is missing
    (formats without EXIF support), the call returns [None], or it returns a
    dictionary from tag numbers to values, here in iteration order. *)
Inductive exif_data :=
  | NoExifMethod
  | ExifNone
  | ExifDict (entries : list (Z * string)).

Record image := {
  pixels : grid;
  exif : exif_data
}.

(** A regular file on disk: the mime type libmagic sniffs, the byte size,
    and the picture it decodes to, if any. *)
Record file_data := {
  mime : string;
  size_bytes : Z;
  picture : option image
}.

(** The program's surroundings: the [images] collection in its natural
    (insertion) order, the regular files and the directories on disk by path
    as written, and the lines printed so far. *)
Record world := {
  images : list document;
  files : gmap string file_data;
  dirs : gset string;
  stdout : list string
}.

Definition set_images (c : list document) (w : world) : world :=
  {| images := c; files := files w; dirs := dirs w; stdout := stdout w |}.
Definition set_files (f : gmap string file_data) (w : world) : world :=
  {| images := images w; files := f; dirs := dirs w; stdout := stdout w |}.
Definition set_dirs (d : gset string) (w : world) : world :=
  {| images := images w; files := files w; dirs := d; stdout := stdout w |}.
Definition set_stdout (o : list string) (w : world) : world :=
  {| images := images w; files := files w; dirs := dirs w; stdout := o |}.

(** ** The monad of Python computations

    A computation runs in a world and either returns or raises; the effects
    made before a raise stay. *)
Definition Py (A : Type) : Type := world → outcome A * world.

Definition ret {A} (a : A) : Py A := λ w, (Return a, w).
Definition raise {A} (e : exn) : Py A := λ w, (Raise e, w).
Definition bind {A B} (m : Py A) (k : A → Py B) : Py B :=
  λ w, match m w with
       | (Return a, w') => k a w'
       | (Raise e, w') => (Raise e, w')
       end.

(** [try: m except ...: h]: the handler [h] decides per exception class and
    re-raises what its clauses do not cover. *)
Definition try_except {A} (m : Py A) (h : exn → Py A) : Py A :=
  λ w, match m w with
       | (Return a, w') => (Return a, w')
       | (Raise e, w') => h e w'
       end.

Declare Scope py_scope.
Delimit Scope py_scope with py.
Notation "x <- m ;; k" := (bind m (λ x, k))
  (at level 100, m at next level, right associativity) : py_scope.
Notation "m ;; k" := (bind m (λ _, k))
  (at level 100, right associativity) : py_scope.
Open Scope py_scope.

(** [for x in xs: body x] *)
Fixpoint for_each {A} (xs : list A) (body : A → Py unit) : Py unit :=
  match xs with
  | [] => ret tt
  | x :: xs' => body x ;; for_each xs' body
  end.

(** A list comprehension [[f x for x in xs]] with an effectful [f]. *)
Fixpoint comprehension {A B} (xs : list A) (f : A → Py B) : Py (list B) :=
  match xs with
  | [] => ret []
  | x :: xs' => y <- f x ;; ys <- comprehension xs' f ;; ret (y :: ys)
  end.

(** [termcolor.cprint]: the text goes to the console; the colour is dropped. *)
Definition cprint (text : string) : Py unit :=
  λ w, (Return tt, set_stdout (stdout w ++ [text]) w).

(** ** The MongoDB collection

    [pymongo] operations on the [images] collection, with [_id] as the unique
    key. *)

Definition insert_one (d : document) : Py unit :=
  λ w, if bool_decide (_id d ∈ _id <$> images w)
       then (Raise DuplicateKeyError, w)
       else (Return tt, set_images (images w ++ [d]) w).

(** [db.count({"_id": file})] *)
Definition count (file : string) : Py nat :=
  λ w, (Return (length (filter (λ d, _id d = file) (images w))), w).

(** [delete_one] removes the first match, if there is one. *)
Fixpoint delete_first (file : string) (c : list document) : list document :=
  match c with
  | [] => []
  | d :: c' => if bool_decide (_id d = file) then c' else d :: delete_first file c'
  end.

Definition delete_one (file : string) : Py unit :=
  λ w, (Return tt, set_images (delete_first file (images w)) w).

Definition drop : Py unit :=
  λ w, (Return tt, set_images [] w).

(** ** Indexing: the store side *)

Definition _add_to_database (file_ hash_ : string) (file_size : Z)
    (image_size capture_time : string) : Py unit :=
  try_except
    (insert_one {| _id := file_; hash := hash_; file_size := file_size;
                   image_size := image_size; capture_time := capture_time |})
    (λ e, match e with
          | DuplicateKeyError => cprint ("Duplicate key: " +:+ file_)
          | _ => raise e
          end).

Definition _in_database (file : string) : Py bool :=
  n <- count file ;; ret (bool_decide (0 < n)%nat).

Definition remove_image (file : string) : Py unit := delete_one file.

Definition clear : Py unit := drop.

(** ** Hash-size normalization *)

(** [1 if x == 0 else 2**math.ceil(math.log2(x))].  [math.log2] raises
    [ValueError] below zero.  Above zero the double it returns is read as the
    exact logarithm, so [math.ceil] of it is [Z.log2_up]; this matches the
    doubles for [x < 2^48]. *)
Definition next_power_of_2 (x : Z) : outcome Z :=
  if (x =? 0)%Z then Return 1%Z
  else if (x <? 0)%Z then Raise ValueError
  else Return (2 ^ Z.log2_up x)%Z.

(** ** Paths *)

Definition slash : Ascii.ascii := Ascii.ascii_of_nat 47.

(** The text before the last slash and the text after it, or [None] when
    there is no slash: [s.rsplit('/', 1)]. *)
Fixpoint rsplit_slash (s : string) : option (string * string) :=
  match s with
  | EmptyString => None
  | String c s' =>
      match rsplit_slash s' with
      | Some (h, t) => Some (String c h, t)
      | None => if Ascii.eqb c slash then Some (EmptyString, s') else None
      end
  end.

(** [os.path.basename] *)
Definition basename (p : string) : string :=
  match rsplit_slash p with
  | Some (_, t) => t
  | None => p
  end.

Definition tab : string := String (Ascii.ascii_of_nat 9) EmptyString.

(** ** Images and their rotations *)

(** [img.size] is [(width, height)]. *)
Definition width (g : grid) : nat := length (hd [] g).
Definition height (g : grid) : nat := length g.

Definition column (j : nat) (g : grid) : list pixel := omap (λ row, row !! j) g.

(** The columns of [g], left to right. *)
Definition transpose (g : grid) : grid := (λ j, column j g) <$> seq 0 (width g).

(** Pillow's [Image.transpose] with [ROTATE_90], [ROTATE_180], [ROTATE_270]
    (counter-clockwise). *)
Definition rotate_90 (g : grid) : grid := reverse (transpose g).
Definition rotate_180 (g : grid) : grid := reverse (reverse <$> g).
Definition rotate_270 (g : grid) : grid := reverse <$> transpose g.

(** The angles [hash_file] turns an image by.  At these angles
    [img.rotate(angle, expand=True)] is an exact transposition; other angles
    resample the pixels and are not modelled. *)
Inductive right_angle := deg0 | deg90 | deg180 | deg270.

Definition degrees (a : right_angle) : Z :=
  match a with deg0 => 0 | deg90 => 90 | deg180 => 180 | deg270 => 270 end.

Definition rotate (g : grid) (angle : right_angle) : grid :=
  match angle with
  | deg0 => g
  | deg90 => rotate_90 g
  | deg180 => rotate_180 g
  | deg270 => rotate_270 g
  end.

(** Python's [sorted] on strings (code point order). *)
Definition sorted (l : list string) : list string := merge_sort String.le l.

(** The type of a successful [hash_file] result:
    [(file, hashes, file_size, image_size, capture_time)]. *)
Definition hashed : Type := string * string * Z * string * string.

Definition full_supported_formats : list string :=
  ["gif"; "jp2"; "jpeg"; "pcx"; "png"; "tiff"; "x-ms-bmp";
   "x-portable-pixmap"; "x-xbitmap"].

Section Finder.

(** [str(imagehash.phash(img, hash_size))]: an external, deterministic
    function of the pixels, taken to return on every picture at the hash
    sizes in use. *)
Variable phash : grid → Z → string.

(** [PIL.ExifTags.TAGS] *)
Variable TAGS : gmap Z string.

(** The global [HASH_SIZE] set at start-up. *)
Variable HASH_SIZE : Z.

(** The order in which the pool's workers finish the calls submitted for a
    list of files, as indices into that list.  Any function will do: indices
    out of range and repetitions are skipped, calls it leaves out finish
    last. *)
Variable scheduler : list string → list nat.

(** *** The fingerprint *)

(** The loop of [hash_file] over the four angles. *)
Definition rotation_hashes (img : grid) (hash_size : Z) : list string :=
  (λ angle,
     let turned_img := if (0 <? degrees angle)%Z then rotate img angle else img in
     phash turned_img hash_size) <$> [deg0; deg90; deg180; deg270].

(** [''.join(sorted(hashes))] *)
Definition fingerprint (img : grid) (hash_size : Z) : string :=
  String.concat "" (sorted (rotation_hashes img hash_size)).

(** *** Metadata *)

Definition os_path_getsize (file_name : string) : Py Z :=
  λ w, match files w !! file_name with
       | Some d => (Return (size_bytes d), w)
       | None => (Raise FileNotFoundError, w)
       end.

Definition get_file_size (file_name : string) : Py Z :=
  try_except (os_path_getsize file_name)
    (λ e, match e with
          | FileNotFoundError => ret 0%Z
          | _ => raise e
          end).

Definition get_image_size (img : image) : string :=
  pretty (width (pixels img)) +:+ " x " +:+ pretty (height (pixels img)).

(** [img._getexif().items()] *)
Definition _getexif_items (img : image) : Py (list (Z * string)) :=
  match exif img with
  | NoExifMethod => raise AttributeError
  | ExifNone => raise AttributeError
  | ExifDict entries => ret entries
  end.

(** [{ExifTags.TAGS[k]: v for k, v in items if k in ExifTags.TAGS}] *)
Definition exif_by_name (items : list (Z * string)) : gmap string string :=
  foldl (λ d kv, match TAGS !! kv.1 with
                 | Some name => <[name := kv.2]> d
                 | None => d
                 end) ∅ items.

Definition get_capture_time (img : image) : Py string :=
  try_except
    (items <- _getexif_items img ;;
     let exif := exif_by_name items in
     match exif !! "DateTimeOriginal" with
     | Some v => ret v
     | None => raise KeyError
     end)
    (λ _, ret "Time unknown").

(** *** Hashing one file *)

Definition Image_open (file : string) : Py image :=
  λ w, match files w !! file with
       | None => (Raise FileNotFoundError, w)
       | Some d => match picture d with
                   | Some img => (Return img, w)
                   | None => (Raise UnidentifiedImageError, w)
                   end
       end.

Definition hash_file (file : string) (hash_size : Z) : Py (option hashed) :=
  try_except
    (img <- Image_open file ;;
     file_size <- get_file_size file ;;
     let image_size := get_image_size img in
     capture_time <- get_capture_time img ;;
     let hashes := fingerprint (pixels img) hash_size in
     cprint (tab +:+ "Hashed " +:+ file) ;;
     ret (Some (file, hashes, file_size, image_size, capture_time)))
    (λ e, if is_OSError e
          then cprint (tab +:+ "Unable to open " +:+ file) ;; ret None
          else raise e).

(** *** The process pool *)

(** Every submitted call finishes: first those the scheduler names, in its
    order, then the rest. *)
Definition completion_order (n : nat) (wish : list nat) : list nat :=
  remove_dups (filter (λ i, i < n)%nat wish)
  ++ filter (λ i, i ∉ wish) (seq 0 n).

(** The workers run the calls in completion order; each outcome is kept in
    the future of its call. *)
Fixpoint run_workers {A} (calls : list (Py A)) (order : list nat)
    (futures : gmap nat (outcome A)) (w : world) : gmap nat (outcome A) * world :=
  match order with
  | [] => (futures, w)
  | i :: order' =>
      match calls !! i with
      | Some call =>
          let '(r, w') := call w in
          run_workers calls order' (<[i := r]> futures) w'
      | None => run_workers calls order' futures w
      end
  end.

(** The result iterator of [Executor.map] hands out [future.result()] in
    submission order, re-raising what the call raised. *)
Fixpoint result_iterator {A} (futures : gmap nat (outcome A)) (ids : list nat)
    : Py (list A) :=
  match ids with
  | [] => ret []
  | i :: ids' =>
      match futures !! i with
      | Some (Return a) => rest <- result_iterator futures ids' ;; ret (a :: rest)
      | Some (Raise e) => raise e
      | None => raise BrokenProcessPool
      end
  end.

(** [executor.map(fn, files, repeat(HASH_SIZE))] *)
Definition executor_map {A} (fn : string → Z → Py A) (files : list string) : Py (list A) :=
  λ w,
    let calls := (λ file, fn file HASH_SIZE) <$> files in
    let order := completion_order (length calls) (scheduler files) in
    let '(futures, w') := run_workers calls order ∅ w in
    result_iterator futures (seq 0 (length calls)) w'.

(** The results that are not [None], in the order the iterator yields them.
    The lines the workers print reach the console in completion order. *)
Definition hash_files_parallel (files : list string) (num_processes : option nat)
    : Py (list hashed) :=
  results <- executor_map hash_file files ;;
  ret (omap id results).

(** *** File discovery *)

Definition magic_from_file (file_name : string) : Py string :=
  λ w, match files w !! file_name with
       | Some d => (Return (mime d), w)
       | None => (Raise FileNotFoundError, w)
       end.

(** [mime.rsplit('/', 1)[1]] raises [IndexError] when the mime type has no
    slash; the handler returns [False]. *)
Definition is_image (file_name : string) : Py bool :=
  mime <- magic_from_file file_name ;;
  match rsplit_slash mime with
  | Some (_, subtype) => ret (bool_decide (subtype ∈ full_supported_formats))
  | None => ret false
  end.

(** [os.walk] joined with its roots: the regular files below [path], paths
    taken as written. *)
Definition os_walk_files (path : string) : Py (list string) :=
  λ w, (Return (filter (λ f, String.prefix (path +:+ "/") f)
                       (map_to_list (files w)).*1), w).

(** A generator that yields the elements on which [p] returns [True],
    drained to a list. *)
Fixpoint filter_py {A} (p : A → Py bool) (xs : list A) : Py (list A) :=
  match xs with
  | [] => ret []
  | x :: xs' =>
      b <- p x ;; rest <- filter_py p xs' ;;
      ret (if b : bool then x :: rest else rest)
  end.

Definition get_image_files (path : string) : Py (list string) :=
  found <- os_walk_files path ;;
  filter_py is_image found.

(** *** Indexing *)

Definition new_image_files (files : list string) : Py (list string) :=
  filter_py (λ file,
    present <- _in_database file ;;
    if present : bool
    then cprint (tab +:+ "Already hashed " +:+ file) ;; ret false
    else ret true) files.

(** [executor.map] submits every call at once, so the generators of
    [get_image_files] and [new_image_files] are drained before the first
    result is inserted. *)
Definition add (paths : list string) (num_processes : option nat) : Py unit :=
  for_each paths (λ path,
    cprint ("Hashing " +:+ path) ;;
    files <- get_image_files path ;;
    files <- new_image_files files ;;
    results <- hash_files_parallel files num_processes ;;
    for_each results (λ '(file_, hash_, file_size, image_size, capture_time),
      _add_to_database file_ hash_ file_size image_size capture_time) ;;
    cprint "...done").

Definition remove (paths : list string) : Py unit :=
  for_each paths (λ path,
    files <- get_image_files path ;;
    for_each files remove_image).

End Finder.

(** ** Finding duplicates *)

(** One entry of a group's [items], as the [$push] stage builds it. *)
Module Item.
Record t := {
  file_name : string;
  file_size : Z;
  image_size : string;
  capture_time : string
}.
#[global] Instance eq_dec : EqDecision t.
Proof. solve_decision. Defined.
End Item.

(** One output document of the [$group] stage. *)
Module Group.
Record t := {
  _id : string;
  total : nat;
  items : list Item.t
}.
End Group.

Definition item_of (d : document) : Item.t :=
  {| Item.file_name := _id d; Item.file_size := file_size d;
     Item.image_size := image_size d; Item.capture_time := capture_time d |}.

(** [$group] by ["$hash"]: a document joins the group of its hash, counted in
    [total] and pushed at the end of [items]; a hash not seen before opens a
    new group behind the others. *)
Fixpoint group_push (d : document) (gs : list Group.t) : list Group.t :=
  match gs with
  | [] => [ {| Group._id := hash d; Group.total := 1; Group.items := [item_of d] |} ]
  | g :: gs' =>
      if bool_decide (Group._id g = hash d)
      then {| Group._id := Group._id g; Group.total := S (Group.total g);
              Group.items := Group.items g ++ [item_of d] |} :: gs'
      else g :: group_push d gs'
  end.

Definition group_by_hash (c : list document) : list Group.t :=
  foldl (λ gs d, group_push d gs) [] c.

(** The pipeline of [find]: [$group], then [$match] on [total > 1]. *)
Definition aggregate : Py (list Group.t) :=
  λ w, (Return (filter (λ g, 1 < Group.total g)%nat (group_by_hash (images w))), w).

(** The Python values [same_time] compares: strings and item dictionaries.
    Values of different types are never equal. *)
Inductive pyobj :=
  | PyStr (s : string)
  | PyDict (i : Item.t).

Definition py_eq (a b : pyobj) : bool :=
  match a, b with
  | PyStr s, PyStr t => bool_decide (s = t)
  | PyDict i, PyDict j => bool_decide (i = j)
  | _, _ => false
  end.

(** [x in l] on a list *)
Definition py_in (x : pyobj) (l : list pyobj) : bool := existsb (py_eq x) l.

Definition same_time (dup : Group.t) : bool :=
  let items := Group.items dup in
  if py_in (PyStr "Time unknown") (PyDict <$> items) then
    (* Since we can't know for sure, better safe than sorry *)
    true
  else if bool_decide (1 < size (list_to_set (Item.capture_time <$> items) : gset string))%nat
  then false
  else true.

Definition find (match_time : bool) : Py (list Group.t) :=
  dups <- aggregate ;;
  let dups := if match_time then filter (λ d, same_time d = true) dups else dups in
  ret dups.

(** ** Disposal *)

Definition os_path_exists (path : string) : Py bool :=
  λ w, (Return (bool_decide (path ∈ dom (files w) ∨ path ∈ dirs w)), w).

(** [os.makedirs] without [exist_ok]: it raises on a path that exists and
    creates the directory otherwise (the model has no permissions). *)
Definition os_makedirs (path : string) : Py unit :=
  λ w, if bool_decide (path ∈ dom (files w) ∨ path ∈ dirs w)
       then (Raise FileExistsError, w)
       else (Return tt, set_dirs ({[path]} ∪ dirs w) w).

(** [shutil.move] of a regular file: the file leaves [src] and replaces
    whatever was at [dst]; a missing [src] raises [FileNotFoundError]. *)
Definition shutil_move (src dst : string) : Py unit :=
  λ w, match files w !! src with
       | None => (Raise FileNotFoundError, w)
       | Some d => (Return tt, set_files (<[dst := d]> (delete src (files w))) w)
       end.

(** [str(e)] *)
Definition str (e : exn) : string :=
  match e with
  | OSError => "OSError"
  | FileNotFoundError => "FileNotFoundError"
  | FileExistsError => "FileExistsError"
  | UnidentifiedImageError => "UnidentifiedImageError"
  | DuplicateKeyError => "DuplicateKeyError"
  | AttributeError => "AttributeError"
  | KeyError => "KeyError"
  | ValueError => "ValueError"
  | BrokenProcessPool => "BrokenProcessPool"
  end.

(** The value is what the function returns: [False] from either handler,
    [True] after the [try] statement. *)
Definition delete_picture (file_name : string) (trash : string) : Py bool :=
  cprint ("Moving " +:+ file_name +:+ " to " +:+ trash) ;;
  present <- os_path_exists trash ;;
  (if present : bool then ret tt else os_makedirs trash) ;;
  try_except
    (shutil_move file_name (trash +:+ basename file_name) ;;
     remove_image file_name ;;
     ret true)
    (λ e, match e with
          | FileNotFoundError => cprint ("File not found " +:+ file_name) ;; ret false
          | _ => cprint ("Error: " +:+ str e) ;; ret false
          end).

(** The default of [delete_picture]'s [trash] parameter. *)
Definition default_trash : string := "./Trash/".

(** [x['file_name'] for dup in duplicates for x in dup['items'][1:]] *)
Definition disposable (duplicates : list Group.t) : list string :=
  dup ← duplicates; Item.file_name <$> tail (Group.items dup).

Definition delete_duplicates (duplicates : list Group.t) : Py unit :=
  results <- comprehension (disposable duplicates)
               (λ file_name, delete_picture file_name default_trash) ;;
  cprint ("Deleted " +:+ pretty (length (filter (λ r, r = true) results))
          +:+ "/" +:+ pretty (length results) +:+ " files").

(** ** Predicates used in the statements *)

(** What a group holds once the documents [c] went through the [$group]
    stage: the items of every document with its hash, in order, and their
    number. *)
Definition group_of (c : list document) (g : Group.t) : Prop :=
  Group.items g = item_of <$> filter (λ d, hash d = Group._id g) c ∧
  Group.total g = length (Group.items g).

(** [w'] differs from [w] in the console at most. *)
Definition only_prints (w w' : world) : Prop :=
  images w' = images w ∧ files w' = files w ∧ dirs w' = dirs w.

(** A world with the given disk and nothing else. *)
Definition blank (disk : gmap string file_data) : world :=
  {| images := []; files := disk; dirs := ∅; stdout := [] |}.

(** What [hash_file] returns for [file] on a given disk. *)
Definition hash_file_result (phash : grid → Z → string) (TAGS : gmap Z string)
    (disk : gmap string file_data) (file : string) (hash_size : Z) : option hashed :=
  match (hash_file phash TAGS file hash_size (blank disk)).1 with
  | Return r => r
  | Raise _ => None
  end.

(** What [is_image] returns for [file] on a given disk. *)
Definition is_image_on (disk : gmap string file_data) (file : string) : bool :=
  match disk !! file with
  | Some d => match rsplit_slash (mime d) with
              | Some (_, subtype) => bool_decide (subtype ∈ full_supported_formats)
              | None => false
              end
  | None => false
  end.

(** What [get_image_files] yields for [path] on a given disk. *)
Definition discovered (disk : gmap string file_data) (path : string) : list string :=
  filter (λ f, is_image_on disk f = true)
    (filter (λ f, String.prefix (path +:+ "/") f) (map_to_list disk).*1).

(** The store after a loop of insertions: the world keeps its disk, no
    identity leaves the store, every inserted identity is in it. *)
Definition grows (w w' : world) : Prop :=
  files w' = files w ∧ dirs w' = dirs w ∧
  ∀ f, f ∈ _id <$> images w → f ∈ _id <$> images w'.


(** A decoded picture: [h] rows of [w] pixels each. *)
Definition rectangular (h w : nat) (g : grid) : Prop :=
  length g = h ∧ Forall (λ row, length row = w) g.

(** The pixel in row [i], column [j]. *)
Definition pixel_at (g : grid) (i j : nat) : option pixel :=
  g !! i ≫= (λ row, row !! j).

(** Where [delete_picture] puts a file. *)
Definition trashed (trash file_name : string) : string :=
  trash +:+ basename file_name.

(** The file [f] has been disposed of: the store has no record of it, a
    file lies at its place in the trash, and none at its own path unless that
    is its place in the trash already. *)
Definition disposed (f : string) (w : world) : Prop :=
  (f ∉ _id <$> images w) ∧
  is_Some (files w !! trashed default_trash f) ∧
  (is_Some (files w !! f) → f = trashed default_trash f).

(** [k] is kept from [w] to [w']: its records are still in the store and, if
    it had a file on disk, it still has one. *)
Definition kept (k : string) (w w' : world) : Prop :=
  (∀ d, d ∈ images w → _id d = k → d ∈ images w') ∧
  (is_Some (files w !! k) → is_Some (files w' !! k)).

(** The line [delete_duplicates] prints at the end. *)
Definition report (results : list bool) : string :=
  "Deleted " +:+ pretty (length (filter (λ r, r = true) results))
  +:+ "/" +:+ pretty (length results) +:+ " files".

(** ** Sample data *)

Definition record (file h t : string) : document :=
  {| _id := file; hash := h; file_size := 1024; image_size := "4 x 3";
     capture_time := t |}.

(** A world with the given collection, an empty disk and a silent console. *)
Definition store_of (c : list document) : world :=
  {| images := c; files := ∅; dirs := ∅; stdout := [] |}.

Definition unknown_time_store : world :=
  store_of [record "/pics/a.jpg" "ABCD" "2020:01:01";
            record "/pics/b.jpg" "ABCD" "Time unknown"].

Definition different_time_store : world :=
  store_of [record "/pics/a.jpg" "ABCD" "2020:01:01";
            record "/pics/b.jpg" "ABCD" "2021:01:01"].

Definition three_record_store : world :=
  store_of [record "/pics/a.jpg" "ABCD" "2020:01:01";
            record "/pics/b.jpg" "WXYZ" "2020:01:01";
            record "/pics/c.jpg" "ABCD" "2020:01:01"].

Definition sample_TAGS : gmap Z string :=
  {[ 36867%Z := "DateTimeOriginal"; 271%Z := "Make" ]}.

(** A stand-in for the perceptual hash: the pixel values, row by row. *)
Definition sample_phash (g : grid) (hash_size : Z) : string :=
  String.concat "," (pretty <$> concat g).

Definition sample_image : image :=
  {| pixels := [[1; 2; 3]; [4; 5; 6]]%Z; exif := ExifDict [(271%Z, "ACME")] |}.

Definition sample_file : file_data :=
  {| mime := "image/png"; size_bytes := 2048; picture := Some sample_image |}.

Definition sample_disk : world :=
  {| images := []; files := {[ "/pics/a.png" := sample_file ]}; dirs := ∅;
     stdout := [] |}.

Definition abc_records : list document :=
  [record "/pics/A.jpg" "ABCD" "2020:01:01";
   record "/pics/B.jpg" "ABCD" "2020:01:01";
   record "/pics/C.jpg" "ABCD" "2020:01:01"].

Definition abc_cluster : Group.t :=
  {| Group._id := "ABCD"; Group.total := 3; Group.items := item_of <$> abc_records |}.

(** The three records with their files on disk. *)
Definition abc_on_disk : world :=
  {| images := abc_records;
     files := {[ "/pics/A.jpg" := sample_file; "/pics/B.jpg" := sample_file;
                 "/pics/C.jpg" := sample_file ]};
     dirs := ∅; stdout := [] |}.


(** ** Further predicates and sample data *)

(** The record [_add_to_database] stores for a result of [hash_file]. *)
Definition document_of (r : hashed) : document :=
  {| _id := r.1.1.1.1; hash := r.1.1.1.2; file_size := r.1.1.2;
     image_size := r.1.2; capture_time := r.2 |}.

(** The files [remove] and [add] look at: what [get_image_files] yields for
    each path in turn. *)
Definition discovered_in (disk : gmap string file_data) (paths : list string)
    : list string :=
  path ← paths; discovered disk path.

(** The results [add] inserts for one path: those of the discovered files
    that have no record yet and that hash. *)
Definition new_results (phash : grid → Z → string) (TAGS : gmap Z string)
    (HASH_SIZE : Z) (w : world) (path : string) : list hashed :=
  omap (λ file, hash_file_result phash TAGS (files w) file HASH_SIZE)
       (filter (λ f, f ∉ _id <$> images w) (discovered (files w) path)).

(** The store after [remove_image] on each of [fs] in turn. *)
Definition without (fs : list string) (c : list document) : list document :=
  foldl (λ c f, delete_first f c) c fs.

(** The files named in a list of clusters. *)
Definition members (dups : list Group.t) : list string :=
  dup ← dups; Item.file_name <$> Group.items dup.




(** A stand-in for a perceptual hash of fixed length: one character for the
    parity of the first pixel. *)
Definition parity_phash (g : grid) (hash_size : Z) : string :=
  if Z.even (default 0%Z (pixel_at g 0 0)) then "0" else "1".



(** * Properties *)

(** ** The monad *)

Lemma bind_run {A B} (m : Py A) (k : A → Py B) w a w' :
  m w = (Return a, w') → bind m k w = k a w'.
Proof. unfold bind. by intros ->. Qed.

Lemma bind_raise {A B} (m : Py A) (k : A → Py B) w e w' :
  m w = (Raise e, w') → bind m k w = (Raise e, w').
Proof. unfold bind. by intros ->. Qed.

Lemma try_except_run {A} (m : Py A) h w a w' :
  m w = (Return a, w') → try_except m h w = (Return a, w').
Proof. unfold try_except. by intros ->. Qed.

Lemma try_except_raise {A} (m : Py A) h w e w' :
  m w = (Raise e, w') → try_except m h w = h e w'.
Proof. unfold try_except. by intros ->. Qed.

(** ** Hash-size normalization *)

Lemma next_power_of_2_pos (x : Z) :
  (0 < x)%Z → next_power_of_2 x = Return (2 ^ Z.log2_up x)%Z.
Proof.
  intros Hx. unfold next_power_of_2.
  destruct (Z.eqb_spec x 0) as [->|_]; [lia|].
  destruct (Z.ltb_spec x 0); [lia|done].
Qed.



(** ** The store *)

Lemma insert_one_present d w :
  _id d ∈ _id <$> images w → insert_one d w = (Raise DuplicateKeyError, w).
Proof. intros H. unfold insert_one. by rewrite bool_decide_eq_true_2. Qed.

Lemma insert_one_fresh d w :
  _id d ∉ _id <$> images w →
  insert_one d w = (Return tt, set_images (images w ++ [d]) w).
Proof. intros H. unfold insert_one. by rewrite bool_decide_eq_false_2. Qed.

Lemma _add_to_database_present file_ hash_ fsize isize ctime w :
  file_ ∈ _id <$> images w →
  _add_to_database file_ hash_ fsize isize ctime w
  = (Return tt, set_stdout (stdout w ++ ["Duplicate key: " +:+ file_]) w).
Proof.
  intros H. unfold _add_to_database.
  set (d := {| _id := file_; hash := hash_; file_size := fsize;
               image_size := isize; capture_time := ctime |}).
  by rewrite (try_except_raise _ _ _ _ _ (insert_one_present d w H)).
Qed.

Lemma _add_to_database_fresh file_ hash_ fsize isize ctime w :
  file_ ∉ _id <$> images w →
  _add_to_database file_ hash_ fsize isize ctime w
  = (Return tt,
     set_images (images w ++ [ {| _id := file_; hash := hash_;
                                  file_size := fsize; image_size := isize;
                                  capture_time := ctime |} ]) w).
Proof.
  intros H. unfold _add_to_database.
  set (d := {| _id := file_; hash := hash_; file_size := fsize;
               image_size := isize; capture_time := ctime |}).
  by rewrite (try_except_run _ _ _ _ _ (insert_one_fresh d w H)).
Qed.

(** C7.  Adding a record whose identity is already stored returns normally,
    prints the duplicate-key line and leaves the collection as it was;
    adding a record with a fresh identity appends it. *)
Theorem add_to_database_insert_only file_ hash_ fsize isize ctime w :
  (file_ ∈ _id <$> images w →
     _add_to_database file_ hash_ fsize isize ctime w
     = (Return tt, set_stdout (stdout w ++ ["Duplicate key: " +:+ file_]) w)) ∧
  (file_ ∉ _id <$> images w →
     _add_to_database file_ hash_ fsize isize ctime w
     = (Return tt,
        set_images (images w ++ [ {| _id := file_; hash := hash_;
                                     file_size := fsize; image_size := isize;
                                     capture_time := ctime |} ]) w)).
Proof.
  split; [apply _add_to_database_present|apply _add_to_database_fresh].
Qed.

Lemma add_to_database_insert_only_witness :
  images (_add_to_database "/pics/a.jpg" "WXYZ" 7 "1 x 1" "Time unknown"
            unknown_time_store).2
  = images unknown_time_store ∧
  length (images (_add_to_database "/pics/z.jpg" "WXYZ" 7 "1 x 1" "Time unknown"
                    unknown_time_store).2) = 3%nat.
Proof.
  split.
  - rewrite (proj1 (add_to_database_insert_only "/pics/a.jpg" "WXYZ" 7 "1 x 1"
                      "Time unknown" unknown_time_store)); [done|].
    apply (bool_decide_unpack _). vm_compute. exact I.
  - rewrite (proj2 (add_to_database_insert_only "/pics/z.jpg" "WXYZ" 7 "1 x 1"
                      "Time unknown" unknown_time_store)); [done|].
    intros Hin. apply (bool_decide_pack _) in Hin. vm_compute in Hin. exact Hin.
Defined.

(** ** Finding duplicates *)

Lemma filter_none {A} (P : A → Prop) `{∀ x, Decision (P x)} (l : list A) :
  (∀ x, x ∈ l → ¬ P x) → filter P l = [].
Proof.
  induction l as [|x l IH]; intros Hno; [done|].
  rewrite filter_cons_False by (apply Hno, list_elem_of_here).
  apply IH. intros y Hy. by apply Hno, list_elem_of_further.
Qed.

Lemma group_by_hash_snoc c d :
  group_by_hash (c ++ [d]) = group_push d (group_by_hash c).
Proof. unfold group_by_hash. by rewrite foldl_app. Qed.

Lemma group_of_other c d g :
  Group._id g ≠ hash d → group_of c g → group_of (c ++ [d]) g.
Proof.
  intros Hne [Hitems Htotal]. split; [|done].
  rewrite filter_app, filter_cons_False, filter_nil, app_nil_r by done. done.
Qed.

Lemma group_push_keys d gs :
  Group._id <$> group_push d gs
  = if bool_decide (hash d ∈ Group._id <$> gs)
    then Group._id <$> gs else (Group._id <$> gs) ++ [hash d].
Proof.
  induction gs as [|g gs IH]; [done|].
  cbn [group_push]. rewrite fmap_cons.
  destruct (decide (Group._id g = hash d)) as [Heq|Hne].
  - rewrite (bool_decide_eq_true_2 _ Heq), fmap_cons. cbn.
    rewrite bool_decide_eq_true_2; [done|]. rewrite Heq. apply list_elem_of_here.
  - rewrite (bool_decide_eq_false_2 _ Hne), fmap_cons, IH.
    destruct (decide (hash d ∈ Group._id <$> gs)) as [Hin|Hnot].
    + rewrite !bool_decide_eq_true_2; [done|by apply list_elem_of_further|done].
    + rewrite !bool_decide_eq_false_2; [done| |done].
      intros [?|?]%elem_of_cons; congruence.
Qed.

Lemma group_push_of c d gs :
  NoDup (Group._id <$> gs) →
  Forall (group_of c) gs →
  (hash d ∉ Group._id <$> gs → filter (λ d', hash d' = hash d) c = []) →
  Forall (group_of (c ++ [d])) (group_push d gs).
Proof.
  induction gs as [|g gs IH]; simpl; intros Hnd Hall Hnew.
  - constructor; [|done]. split; [|done]. simpl.
    rewrite filter_app, Hnew by apply not_elem_of_nil.
    by rewrite filter_cons_True, filter_nil.
  - apply NoDup_cons in Hnd as [Hg Hnd].
    apply Forall_cons in Hall as [[Hitems Htotal] Hall].
    case_bool_decide as Hkey.
    + constructor.
      * split; simpl.
        -- rewrite filter_app, filter_cons_True, filter_nil by done.
           by rewrite fmap_app, Hitems.
        -- rewrite length_app, Htotal. simpl. lia.
      * apply Forall_forall. intros g' Hin.
        apply group_of_other; [|by eapply Forall_forall in Hall].
        intros Heq. apply Hg.
        rewrite Hkey, <- Heq. by apply list_elem_of_fmap_2.
    + constructor.
      * by apply group_of_other.
      * apply IH; [done..|]. intros Hnot. apply Hnew.
        intros [?|?]%elem_of_cons; [congruence|done].
Qed.

(** The invariant of the [$group] stage: one group per hash, every group
    complete, every document in a group. *)
Lemma group_by_hash_spec c :
  NoDup (Group._id <$> group_by_hash c) ∧
  Forall (group_of c) (group_by_hash c) ∧
  ∀ d, d ∈ c → hash d ∈ Group._id <$> group_by_hash c.
Proof.
  induction c as [|d c IH] using rev_ind.
  - repeat split; [constructor|constructor|].
    intros d Hd. by apply elem_of_nil in Hd.
  - destruct IH as (Hnd & Hall & Hcov). rewrite group_by_hash_snoc.
    split; [|split].
    + rewrite group_push_keys. case_bool_decide as Hin; [done|].
      apply NoDup_app. split; [done|]. split; [|apply NoDup_singleton].
      intros k Hk ->%list_elem_of_singleton. done.
    + apply group_push_of; [done..|]. intros Hnot.
      apply filter_none. intros d' Hd' Heq. apply Hnot.
      rewrite <- Heq. by apply Hcov.
    + intros d' Hd'. rewrite group_push_keys.
      apply elem_of_app in Hd' as [Hd'|Hd'];
        [|apply list_elem_of_singleton in Hd' as ->].
      * case_bool_decide; [|apply elem_of_app; left]; by apply Hcov.
      * case_bool_decide; [done|]. apply elem_of_app; right.
        apply list_elem_of_here.
Qed.

Lemma find_run match_time w :
  find match_time w
  = (Return (let dups := filter (λ g, 1 < Group.total g)%nat
                                (group_by_hash (images w)) in
             if match_time then filter (λ d, same_time d = true) dups else dups),
     w).
Proof. done. Qed.

(** C8.  [find] returns in every store; each cluster it returns holds, in
    store order, all the records of one fingerprint and more than one of
    them; without [match_time] the clusters are exactly the fingerprints that
    more than one record carries, each once.  On three records of which two
    share a fingerprint the result is one cluster of those two. *)
Theorem find_clusters_have_several_members :
  (∀ (match_time : bool) (w : world),
     ∃ dups, find match_time w = (Return dups, w) ∧
       Forall (λ g, (1 < length (Group.items g))%nat ∧
                    Group.total g = length (Group.items g) ∧
                    Group.items g
                    = item_of <$> filter (λ d, hash d = Group._id g) (images w))
              dups) ∧
  (∀ w, ∃ dups, find false w = (Return dups, w) ∧
     NoDup (Group._id <$> dups) ∧
     ∀ h, h ∈ Group._id <$> dups ↔
          (1 < length (filter (λ d, hash d = h) (images w)))%nat) ∧
  (find false three_record_store).1
  = Return [ {| Group._id := "ABCD"; Group.total := 2;
                Group.items :=
                  [item_of (record "/pics/a.jpg" "ABCD" "2020:01:01");
                   item_of (record "/pics/c.jpg" "ABCD" "2020:01:01")] |} ].
Proof.
  split; [|split].
  - intros match_time w. eexists. split; [apply find_run|].
    destruct (group_by_hash_spec (images w)) as (_ & Hall & _).
    assert (Forall (λ g, (1 < length (Group.items g))%nat ∧
                    Group.total g = length (Group.items g) ∧
                    Group.items g
                    = item_of <$> filter (λ d, hash d = Group._id g) (images w))
              (filter (λ g, 1 < Group.total g)%nat (group_by_hash (images w))))
      as Hok.
    { apply Forall_forall. intros g [Hgt Hg]%list_elem_of_filter.
      eapply Forall_forall in Hall as [Hitems Htotal]; [|done].
      rewrite <- Htotal. done. }
    cbv zeta. destruct match_time; [|done].
    apply Forall_forall. intros g [_ Hg]%list_elem_of_filter.
    by eapply Forall_forall in Hok.
  - intros w. eexists. split; [apply find_run|]. cbv zeta iota.
    destruct (group_by_hash_spec (images w)) as (Hnd & Hall & Hcov).
    split.
    + eapply sublist_NoDup; [exact Hnd|]. apply fmap_sublist, sublist_filter.
    + intros h. split.
      * intros (g & -> & [Hgt Hg]%list_elem_of_filter)%list_elem_of_fmap.
        eapply Forall_forall in Hall as [Hitems Htotal]; [|done].
        rewrite Htotal, Hitems, length_fmap in Hgt. done.
      * intros Hlen.
        destruct (filter (λ d, hash d = h) (images w)) as [|d ?] eqn:Hf;
          [simpl in Hlen; lia|].
        assert (d ∈ filter (λ d, hash d = h) (images w))
          as [Hd Hin]%list_elem_of_filter
          by (rewrite Hf; apply list_elem_of_here).
        apply Hcov in Hin as (g & Hkey & Hg)%list_elem_of_fmap.
        apply list_elem_of_fmap. exists g. split; [congruence|].
        apply list_elem_of_filter. split; [|done].
        eapply Forall_forall in Hall as [Hitems Htotal]; [|done].
        rewrite Htotal, Hitems, length_fmap, <- Hkey, Hd, Hf. done.
  - vm_compute. reflexivity.
Qed.

(** The test ["Time unknown" in items] compares a string with the item
    dictionaries, so it never holds. *)
Lemma str_not_in_items s (items : list Item.t) :
  py_in (PyStr s) (PyDict <$> items) = false.
Proof. induction items as [|i items IH]; [done|]. simpl. exact IH. Qed.

(** Hence [same_time] only counts the distinct capture times. *)
Lemma same_time_counts dup :
  same_time dup
  = negb (bool_decide
            (1 < size (list_to_set (Item.capture_time <$> Group.items dup)
                       : gset string))%nat).
Proof.
  unfold same_time. cbv zeta. rewrite str_not_in_items.
  by case_bool_decide.
Qed.

(** C1.  On a store whose only fingerprint group has the capture times
    ["2020:01:01"] and ["Time unknown"], [find] with [match_time] returns no
    cluster, although it returns the cluster without [match_time]; two known
    but different times are excluded as well. *)
Theorem find_match_time_drops_unknown_time :
  (find true unknown_time_store).1 = Return [] ∧
  (find false unknown_time_store).1
  = Return [ {| Group._id := "ABCD"; Group.total := 2;
                Group.items :=
                  [item_of (record "/pics/a.jpg" "ABCD" "2020:01:01");
                   item_of (record "/pics/b.jpg" "ABCD" "Time unknown")] |} ] ∧
  (find true different_time_store).1 = Return [].
Proof. repeat split; vm_compute; reflexivity. Qed.

(** ** Metadata and hashing one file *)

Section Metadata.
Variable phash : grid → Z → string.
Variable TAGS : gmap Z string.

Lemma get_capture_time_run img w :
  get_capture_time TAGS img w
  = (Return match exif img with
            | ExifDict entries =>
                default "Time unknown" (exif_by_name TAGS entries !! "DateTimeOriginal")
            | _ => "Time unknown"
            end, w).
Proof.
  unfold get_capture_time, try_except, bind, _getexif_items.
  destruct (exif img) as [| |entries]; [done..|].
  unfold ret. by destruct (exif_by_name TAGS entries !! "DateTimeOriginal").
Qed.

Lemma get_file_size_run file w :
  get_file_size file w = (Return (from_option size_bytes 0%Z (files w !! file)), w).
Proof.
  unfold get_file_size, try_except, os_path_getsize.
  by destruct (files w !! file).
Qed.

Lemma hash_file_opened file hash_size w d img :
  files w !! file = Some d → picture d = Some img →
  hash_file phash TAGS file hash_size w
  = (Return (Some (file, fingerprint phash (pixels img) hash_size, size_bytes d,
                   get_image_size img,
                   match exif img with
                   | ExifDict entries =>
                       default "Time unknown"
                         (exif_by_name TAGS entries !! "DateTimeOriginal")
                   | _ => "Time unknown"
                   end)),
     set_stdout (stdout w ++ [tab +:+ "Hashed " +:+ file]) w).
Proof.
  intros Hfile Hpic. unfold hash_file.
  apply try_except_run.
  erewrite bind_run; [|unfold Image_open; by rewrite Hfile, Hpic].
  erewrite bind_run; [|apply get_file_size_run].
  rewrite Hfile. simpl.
  erewrite bind_run; [|apply get_capture_time_run].
  done.
Qed.

Lemma hash_file_unopened file hash_size w :
  (∀ d, files w !! file = Some d → picture d = None) →
  hash_file phash TAGS file hash_size w
  = (Return None, set_stdout (stdout w ++ [tab +:+ "Unable to open " +:+ file]) w).
Proof.
  intros Hno. unfold hash_file, try_except, bind, Image_open.
  destruct (files w !! file) as [d|] eqn:Hfile; [|done].
  by rewrite (Hno d eq_refl).
Qed.

End Metadata.


(** ** The process pool *)

Lemma only_prints_refl w : only_prints w w.
Proof. done. Qed.

Lemma only_prints_trans w1 w2 w3 :
  only_prints w1 w2 → only_prints w2 w3 → only_prints w1 w3.
Proof. unfold only_prints. intros (?&?&?) (?&?&?). split_and!; congruence. Qed.

Lemma only_prints_stdout w o : only_prints w (set_stdout o w).
Proof. done. Qed.

Lemma omap_id_fmap {A B} (f : A → option B) (l : list A) :
  omap id (f <$> l) = omap f l.
Proof.
  induction l as [|x l IH]; [done|]. cbn. rewrite IH. by destruct (f x).
Qed.

Lemma omap_keys_filter {A B} `{EqDecision A} (f : A → option B) (key : B → A)
    (l : list A) :
  (∀ x y, f x = Some y → key y = x) →
  key <$> omap f l = filter (λ x, is_Some (f x)) l.
Proof.
  intros Hkey. induction l as [|x l IH]; [done|].
  rewrite filter_cons. cbn [omap list_omap].
  destruct (f x) as [y|] eqn:Hfx.
  - rewrite decide_True by done. rewrite fmap_cons.
    by rewrite IH, (Hkey x y Hfx).
  - rewrite decide_False; [done|]. by intros [? ?].
Qed.

Section Pool.
Variable phash : grid → Z → string.
Variable TAGS : gmap Z string.
Variable HASH_SIZE : Z.
Variable scheduler : list string → list nat.

Lemma hash_file_frame file hash_size w :
  ∃ line, hash_file phash TAGS file hash_size w
  = (Return (hash_file_result phash TAGS (files w) file hash_size),
     set_stdout (stdout w ++ [line]) w).
Proof.
  unfold hash_file_result.
  destruct (files w !! file) as [d|] eqn:Hfile;
    [destruct (picture d) as [img|] eqn:Hpic|].
  - eexists. rewrite (hash_file_opened _ _ _ _ (blank (files w)) d img) by done.
    by apply hash_file_opened.
  - eexists. rewrite (hash_file_unopened _ _ _ _ (blank (files w))).
    + apply hash_file_unopened. intros d' Hd'. congruence.
    + simpl. intros d' Hd'. congruence.
  - eexists. rewrite (hash_file_unopened _ _ _ _ (blank (files w))).
    + apply hash_file_unopened. intros d' Hd'. congruence.
    + simpl. intros d' Hd'. congruence.
Qed.

Lemma hash_file_result_key disk file hash_size r :
  hash_file_result phash TAGS disk file hash_size = Some r → r.1.1.1.1 = file.
Proof.
  unfold hash_file_result.
  destruct (disk !! file) as [d|] eqn:Hfile;
    [destruct (picture d) as [img|] eqn:Hpic|].
  - rewrite (hash_file_opened _ _ _ _ (blank disk) d img) by done.
    simpl. by intros [= <-].
  - rewrite (hash_file_unopened _ _ _ _ (blank disk)); [done|].
    simpl. intros d' Hd'. congruence.
  - rewrite (hash_file_unopened _ _ _ _ (blank disk)); [done|].
    simpl. intros d' Hd'. congruence.
Qed.

Lemma completion_order_covers n wish i :
  i < n → i ∈ completion_order n wish.
Proof.
  intros Hi. unfold completion_order. apply elem_of_app.
  destruct (decide (i ∈ wish)) as [Hin|Hnot].
  - left. apply elem_of_remove_dups, list_elem_of_filter. done.
  - right. apply list_elem_of_filter. split; [done|].
    apply elem_of_seq. lia.
Qed.

Section Workers.
Context {A : Type} (calls : list (Py A)) (results : list A) (w0 : world).
Hypothesis calls_return : ∀ i call w,
  calls !! i = Some call → only_prints w0 w →
  ∃ r w', results !! i = Some r ∧ call w = (Return r, w') ∧ only_prints w0 w'.

Lemma run_workers_spec order futures w :
  only_prints w0 w →
  ∃ futures' w',
    run_workers calls order futures w = (futures', w') ∧
    only_prints w0 w' ∧
    ∀ i, futures' !! i
         = if decide (i ∈ order ∧ i < length calls)
           then Return <$> results !! i else futures !! i.
Proof.
  revert futures w. induction order as [|i0 order IH]; intros futures w Hw.
  - exists futures, w. split; [done|]. split; [done|]. intros i.
    case_decide as Hi; [|done]. destruct Hi as [Hi _]. by apply elem_of_nil in Hi.
  - cbn [run_workers]. destruct (calls !! i0) as [call|] eqn:Hcall.
    + destruct (calls_return i0 call w Hcall Hw) as (r & w1 & Hr & Hrun & Hw1).
      rewrite Hrun.
      destruct (IH (<[i0:=Return r]> futures) w1 Hw1) as (futures' & w' & -> & Hw' & Hlook).
      exists futures', w'. split; [done|]. split; [done|]. intros i.
      rewrite Hlook. apply lookup_lt_Some in Hcall.
      destruct (decide (i = i0)) as [->|Hne].
      * rewrite lookup_insert_eq, Hr. simpl.
        rewrite (decide_True (P := i0 ∈ i0 :: order ∧ i0 < length calls));
          [by case_decide|]. split; [apply list_elem_of_here|done].
      * rewrite lookup_insert_ne by done.
        apply decide_ext. rewrite elem_of_cons.
        split; [intros [? ?]; auto|intros [[?|?] ?]; [done|auto]].
    + destruct (IH futures w Hw) as (futures' & w' & -> & Hw' & Hlook).
      exists futures', w'. split; [done|]. split; [done|]. intros i.
      rewrite Hlook. apply lookup_ge_None in Hcall.
      apply decide_ext. rewrite elem_of_cons. split; [intros [? ?]; auto|].
      intros [[->|Hin] Hlt]; [|done].
      destruct (Nat.lt_irrefl i0). eapply Nat.lt_le_trans; [exact Hlt|exact Hcall].
Qed.
End Workers.

Lemma result_iterator_run {A} (futures : gmap nat (outcome A)) ids rs w :
  Forall2 (λ i r, futures !! i = Some (Return r)) ids rs →
  result_iterator futures ids w = (Return rs, w).
Proof.
  intros H. induction H as [|i r ids rs Hi _ IH]; [done|].
  cbn [result_iterator]. rewrite Hi. by erewrite bind_run.
Qed.

Lemma executor_map_run {A} (fn : string → Z → Py A) (res : string → A) files w :
  (∀ file w', only_prints w w' →
     ∃ w'', fn file HASH_SIZE w' = (Return (res file), w'') ∧ only_prints w w'') →
  ∃ w', executor_map HASH_SIZE scheduler fn files w = (Return (res <$> files), w') ∧
        only_prints w w'.
Proof.
  intros Hfn. unfold executor_map.
  set (calls := (λ file, fn file HASH_SIZE) <$> files).
  destruct (run_workers_spec calls (res <$> files) w) with
    (order := completion_order (length calls) (scheduler files))
    (futures := (∅ : gmap nat (outcome A))) (w := w)
    as (futures' & w' & -> & Hw' & Hlook); [|done|].
  { intros i call w1 Hcall Hw1. unfold calls in Hcall.
    rewrite list_lookup_fmap in Hcall.
    destruct (files !! i) as [file|] eqn:Hfile; [|done].
    injection Hcall as <-. destruct (Hfn file w1 Hw1) as (w2 & Hrun & Hw2).
    exists (res file), w2. by rewrite list_lookup_fmap, Hfile. }
  exists w'. split; [|done]. apply result_iterator_run.
  apply Forall2_same_length_lookup. split.
  { unfold calls. by rewrite length_seq, !length_fmap. }
  intros i j r [-> Hi]%lookup_seq Hr. cbn [Nat.add].
  rewrite Hlook, decide_True; [by rewrite Hr|].
  split; [|done]. by apply completion_order_covers.
Qed.

Lemma hash_files_parallel_run fs num_processes w :
  ∃ w', hash_files_parallel phash TAGS HASH_SIZE scheduler fs num_processes w
        = (Return (omap (λ file, hash_file_result phash TAGS (files w) file HASH_SIZE)
                        fs), w') ∧
        only_prints w w'.
Proof.
  unfold hash_files_parallel.
  destruct (executor_map_run (hash_file phash TAGS)
              (λ file, hash_file_result phash TAGS (files w) file HASH_SIZE) fs w)
    as (w' & Hrun & Hw').
  { intros file w1 Hw1. destruct (hash_file_frame file HASH_SIZE w1) as [line Hline].
    eexists. split.
    - rewrite Hline. by destruct Hw1 as (_ & -> & _).
    - eapply only_prints_trans; [done|]. apply only_prints_stdout. }
  exists w'. split; [|done]. erewrite bind_run; [|done].
  unfold ret. by rewrite omap_id_fmap.
Qed.

End Pool.

(** ** Indexing *)

Lemma _in_database_run file w :
  _in_database file w = (Return (bool_decide (file ∈ _id <$> images w)), w).
Proof.
  unfold _in_database, bind, count, ret. f_equal. f_equal.
  apply bool_decide_ext. induction (images w) as [|d c IH]; simpl.
  - split; [lia|]. by intros ?%elem_of_nil.
  - rewrite filter_cons, elem_of_cons. case_decide as Hd; simpl.
    + split; [by left|lia].
    + rewrite IH. split; [by right|]. by intros [?|?]; [congruence|].
Qed.

Lemma filter_py_run {A} (p : A → Py bool) (q : A → bool) l w :
  (∀ x w1, x ∈ l → only_prints w w1 →
     ∃ w2, p x w1 = (Return (q x), w2) ∧ only_prints w w2) →
  ∃ w', filter_py p l w = (Return (filter (λ x, q x = true) l), w') ∧
        only_prints w w'.
Proof.
  intros Hp. assert (only_prints w w) as Hw by done. revert Hw.
  generalize w at 2 3 as w1.
  induction l as [|x l IH]; intros w1 Hw1.
  - by exists w1.
  - destruct (Hp x w1) as (w2 & Hrun & Hw2); [apply list_elem_of_here|done|].
    destruct (IH (λ y w3 Hy, Hp y w3 (list_elem_of_further _ _ _ Hy)) w2 Hw2)
      as (w' & Hrest & Hw').
    exists w'. split; [|done]. cbn [filter_py].
    erewrite bind_run; [|exact Hrun]. erewrite bind_run; [|exact Hrest].
    rewrite filter_cons. unfold ret. by destruct (q x).
Qed.

Lemma bind_unit_r (m : Py unit) w : bind m (λ _, ret tt) w = m w.
Proof. unfold bind, ret. by destruct (m w) as [[[]|e] w']. Qed.

Lemma bind_assoc_run {A B C} (m : Py A) (k : A → Py B) (h : B → Py C) w :
  bind (bind m k) h w = bind m (λ a, bind (k a) h) w.
Proof. unfold bind. by destruct (m w) as [[a|e] w']. Qed.

Lemma for_each_cons_run {A} (x : A) xs body w :
  for_each (x :: xs) body w = bind (for_each [x] body) (λ _, for_each xs body) w.
Proof.
  cbn [for_each]. rewrite bind_assoc_run. unfold bind, ret.
  by destruct (body x w) as [[[]|e] w'].
Qed.

Lemma is_image_run file w :
  is_Some (files w !! file) →
  is_image file w = (Return (is_image_on (files w) file), w).
Proof.
  intros [d Hd]. unfold is_image, is_image_on, bind, magic_from_file.
  rewrite Hd. by destruct (rsplit_slash (mime d)) as [[? ?]|].
Qed.

Lemma get_image_files_run path w :
  ∃ w', get_image_files path w = (Return (discovered (files w) path), w') ∧
        only_prints w w'.
Proof.
  unfold get_image_files.
  set (found := filter (λ f, String.prefix (path +:+ "/") f) (map_to_list (files w)).*1).
  destruct (filter_py_run is_image (is_image_on (files w)) found w) as (w' & Hrun & Hw').
  { intros f w1 [_ Hf]%list_elem_of_filter Hw1. exists w1. split; [|done].
    destruct Hw1 as (_ & Hfiles & _). rewrite <- Hfiles. apply is_image_run.
    rewrite Hfiles. apply list_elem_of_fmap in Hf as ([f' d] & -> & Hin).
    apply elem_of_map_to_list in Hin. by exists d. }
  exists w'. split; [|done]. by erewrite bind_run.
Qed.

Lemma new_image_files_run fs w :
  ∃ w', new_image_files fs w
        = (Return (filter (λ f, negb (bool_decide (f ∈ _id <$> images w)) = true) fs), w') ∧
        only_prints w w'.
Proof.
  apply filter_py_run. intros f w1 _ Hw1.
  erewrite bind_run; [|apply _in_database_run].
  destruct Hw1 as (Himg & Hfiles & Hdirs). rewrite Himg.
  destruct (bool_decide (f ∈ _id <$> images w)); simpl.
  - eexists. split; [unfold bind, cprint, ret; reflexivity|]. done.
  - eexists. split; [reflexivity|done].
Qed.

Lemma new_image_files_absent fs w :
  ∃ w', new_image_files fs w
        = (Return (filter (λ f, f ∉ _id <$> images w) fs), w') ∧
        only_prints w w'.
Proof.
  destruct (new_image_files_run fs w) as (w' & Hrun & Hw').
  exists w'. split; [|done]. rewrite Hrun. do 2 f_equal.
  apply list_filter_iff. intros f. rewrite negb_true_iff, bool_decide_eq_false. done.
Qed.

Lemma grows_refl w : grows w w.
Proof. done. Qed.





Section Indexing.
Variable phash : grid → Z → string.
Variable TAGS : gmap Z string.
Variable HASH_SIZE : Z.
Variable scheduler : list string → list nat.



Lemma add_cons path paths num_processes w :
  add phash TAGS HASH_SIZE scheduler (path :: paths) num_processes w
  = bind (add phash TAGS HASH_SIZE scheduler [path] num_processes) (λ _, add phash TAGS HASH_SIZE scheduler paths num_processes) w.
Proof. unfold add. apply for_each_cons_run. Qed.


End Indexing.

(** ** Rotations and the fingerprint *)

Lemma grid_ext h w g1 g2 :
  rectangular h w g1 → rectangular h w g2 →
  (∀ i j, i < h → j < w → pixel_at g1 i j = pixel_at g2 i j) →
  g1 = g2.
Proof.
  intros [Hh1 Hw1] [Hh2 Hw2] Hpx.
  apply (list_eq_same_length _ _ h); [done..|].
  intros i r1 r2 Hi Hr1 Hr2.
  assert (length r1 = w) as Hl1 by (by eapply Forall_lookup_1 in Hw1).
  assert (length r2 = w) as Hl2 by (by eapply Forall_lookup_1 in Hw2).
  apply (list_eq_same_length _ _ w); [done..|].
  intros j x1 x2 Hj Hx1 Hx2.
  specialize (Hpx i j Hi Hj). unfold pixel_at in Hpx.
  rewrite Hr1, Hr2 in Hpx. simpl in Hpx. congruence.
Qed.

Lemma rectangular_width h w g : 0 < h → rectangular h w g → width g = w.
Proof.
  intros Hh [Hlen Hall]. unfold width.
  destruct g as [|row g]; [simpl in Hlen; lia|]. simpl.
  by apply Forall_cons in Hall as [? _].
Qed.

Lemma column_spec h w g j :
  rectangular h w g → j < w →
  length (column j g) = h ∧ ∀ i, column j g !! i = pixel_at g i j.
Proof.
  intros [<- Hall] Hj. unfold column, pixel_at.
  induction g as [|row g IH]; [done|].
  apply Forall_cons in Hall as [Hrow Hall]. destruct (IH Hall) as [IHlen IHlook].
  destruct (lookup_lt_is_Some_2 row j) as [x Hx]; [lia|].
  cbn [omap list_omap]. rewrite Hx. split; [simpl; by rewrite IHlen|].
  intros [|i]; [by simpl; rewrite Hx|]. simpl. apply IHlook.
Qed.

Lemma transpose_spec h w g :
  0 < h → rectangular h w g →
  rectangular w h (transpose g) ∧
  ∀ i j, i < w → j < h → pixel_at (transpose g) i j = pixel_at g j i.
Proof.
  intros Hh Hg. unfold transpose. rewrite (rectangular_width h w g) by done.
  split; [split|].
  - by rewrite length_fmap, length_seq.
  - apply Forall_fmap, Forall_seq. intros j Hj. simpl.
    apply (column_spec h w); [done|lia].
  - intros i j Hi Hj. unfold pixel_at at 1.
    rewrite list_lookup_fmap, lookup_seq_lt by done. simpl.
    by apply (column_spec h w).
Qed.

Lemma reverse_rows_spec h w g :
  rectangular h w g →
  rectangular h w (reverse g) ∧
  ∀ i j, i < h → pixel_at (reverse g) i j = pixel_at g (h - S i) j.
Proof.
  intros [<- Hall]. split; [split|].
  - apply length_reverse.
  - by apply Forall_reverse.
  - intros i j Hi. unfold pixel_at. by rewrite reverse_lookup.
Qed.

Lemma reverse_each_spec h w g :
  rectangular h w g →
  rectangular h w (reverse <$> g) ∧
  ∀ i j, j < w → pixel_at (reverse <$> g) i j = pixel_at g i (w - S j).
Proof.
  intros [<- Hall]. split; [split|].
  - apply length_fmap.
  - apply Forall_fmap. eapply Forall_impl; [exact Hall|].
    intros row Hrow. simpl. by rewrite length_reverse.
  - intros i j Hj. unfold pixel_at. rewrite list_lookup_fmap.
    destruct (g !! i) as [row|] eqn:Hrow; [|done]. simpl.
    assert (length row = w) as <- by (by eapply Forall_lookup_1 in Hall).
    by apply reverse_lookup.
Qed.

(** The rotations as maps on pixel positions. *)
Lemma rotate_90_spec h w g :
  0 < h → rectangular h w g →
  rectangular w h (rotate_90 g) ∧
  ∀ i j, i < w → j < h → pixel_at (rotate_90 g) i j = pixel_at g j (w - S i).
Proof.
  intros Hh Hg. destruct (transpose_spec h w g Hh Hg) as [Ht Hpx].
  destruct (reverse_rows_spec w h _ Ht) as [Hr Hrx].
  split; [done|]. intros i j Hi Hj. unfold rotate_90.
  rewrite Hrx by done. apply Hpx; [lia|done].
Qed.

Lemma rotate_180_spec h w g :
  rectangular h w g →
  rectangular h w (rotate_180 g) ∧
  ∀ i j, i < h → j < w →
    pixel_at (rotate_180 g) i j = pixel_at g (h - S i) (w - S j).
Proof.
  intros Hg. destruct (reverse_each_spec h w g Hg) as [He Hex].
  destruct (reverse_rows_spec h w _ He) as [Hr Hrx].
  split; [done|]. intros i j Hi Hj. unfold rotate_180.
  rewrite Hrx by done. by apply Hex.
Qed.

Lemma rotate_270_spec h w g :
  0 < h → rectangular h w g →
  rectangular w h (rotate_270 g) ∧
  ∀ i j, i < w → j < h → pixel_at (rotate_270 g) i j = pixel_at g (h - S j) i.
Proof.
  intros Hh Hg. destruct (transpose_spec h w g Hh Hg) as [Ht Hpx].
  destruct (reverse_each_spec w h _ Ht) as [Hr Hrx].
  split; [done|]. intros i j Hi Hj. unfold rotate_270.
  rewrite Hrx by done. apply Hpx; [done|lia].
Qed.

Section Turns.
Context (h w : nat) (g : grid).
Hypothesis (Hh : 0 < h) (Hw : 0 < w) (Hg : rectangular h w g).

Lemma rotate_90_90 : rotate_90 (rotate_90 g) = rotate_180 g.
Proof.
  destruct (rotate_90_spec h w g Hh Hg) as [H1 Hpx1].
  destruct (rotate_90_spec w h _ Hw H1) as [H2 Hpx2].
  destruct (rotate_180_spec h w g Hg) as [H3 Hpx3].
  apply (grid_ext h w); [done..|]. intros i j Hi Hj.
  rewrite Hpx2, Hpx1, Hpx3 by lia. done.
Qed.

Lemma rotate_90_180 : rotate_90 (rotate_180 g) = rotate_270 g.
Proof.
  destruct (rotate_180_spec h w g Hg) as [H1 Hpx1].
  destruct (rotate_90_spec h w _ Hh H1) as [H2 Hpx2].
  destruct (rotate_270_spec h w g Hh Hg) as [H3 Hpx3].
  apply (grid_ext w h); [done..|]. intros i j Hi Hj.
  rewrite Hpx2, Hpx1, Hpx3 by lia. f_equal. lia.
Qed.

Lemma rotate_90_270 : rotate_90 (rotate_270 g) = g.
Proof.
  destruct (rotate_270_spec h w g Hh Hg) as [H1 Hpx1].
  destruct (rotate_90_spec w h _ Hw H1) as [H2 Hpx2].
  apply (grid_ext h w); [done..|]. intros i j Hi Hj.
  rewrite Hpx2, Hpx1 by lia. f_equal. lia.
Qed.
End Turns.

Section MoreTurns.
Context (h w : nat) (g : grid).
Hypothesis (Hh : 0 < h) (Hw : 0 < w) (Hg : rectangular h w g).

Let H90 : rectangular w h (rotate_90 g) := proj1 (rotate_90_spec h w g Hh Hg).
Let H180 : rectangular h w (rotate_180 g) := proj1 (rotate_180_spec h w g Hg).
Let H270 : rectangular w h (rotate_270 g) := proj1 (rotate_270_spec h w g Hh Hg).

Lemma rotate_180_90 : rotate_180 (rotate_90 g) = rotate_270 g.
Proof.
  rewrite <- (rotate_90_90 w h (rotate_90 g)) by done.
  rewrite (rotate_90_90 h w g) by done. by apply (rotate_90_180 h w).
Qed.

Lemma rotate_270_90 : rotate_270 (rotate_90 g) = g.
Proof.
  rewrite <- (rotate_90_180 w h (rotate_90 g)) by done.
  rewrite rotate_180_90. by apply (rotate_90_270 h w).
Qed.

Lemma rotate_180_180 : rotate_180 (rotate_180 g) = g.
Proof.
  rewrite <- (rotate_90_90 h w (rotate_180 g)) by done.
  rewrite (rotate_90_180 h w g) by done. by apply (rotate_90_270 h w).
Qed.

Lemma rotate_270_180 : rotate_270 (rotate_180 g) = rotate_90 g.
Proof.
  rewrite <- (rotate_90_180 h w (rotate_180 g)) by done.
  by rewrite rotate_180_180.
Qed.

Lemma rotate_180_270 : rotate_180 (rotate_270 g) = rotate_90 g.
Proof.
  rewrite <- (rotate_90_90 w h (rotate_270 g)) by done.
  by rewrite (rotate_90_270 h w g).
Qed.

Lemma rotate_270_270 : rotate_270 (rotate_270 g) = rotate_180 g.
Proof.
  rewrite <- (rotate_90_180 w h (rotate_270 g)) by done.
  rewrite rotate_180_270. by apply (rotate_90_90 h w).
Qed.
End MoreTurns.

Lemma sorted_Permutation l1 l2 : l1 ≡ₚ l2 → sorted l1 = sorted l2.
Proof.
  intros Hperm. unfold sorted.
  apply (Sorted_unique String.le); [apply Sorted_merge_sort; apply _..|].
  by rewrite !merge_sort_Permutation.
Qed.

Section Fingerprint.
Variable phash : grid → Z → string.

Lemma rotation_hashes_turned h w g hash_size angle :
  0 < h → 0 < w → rectangular h w g →
  rotation_hashes phash (rotate g angle) hash_size
  ≡ₚ rotation_hashes phash g hash_size.
Proof.
  intros Hh Hw Hg. unfold rotation_hashes. cbn.
  destruct angle; cbn [rotate].
  - done.
  - rewrite (rotate_90_90 h w), (rotate_180_90 h w), (rotate_270_90 h w) by done.
    apply (Permutation_app_comm [_; _; _] [_]).
  - rewrite (rotate_90_180 h w), (rotate_180_180 h w), (rotate_270_180 h w) by done.
    apply (Permutation_app_comm [_; _] [_; _]).
  - rewrite (rotate_90_270 h w), (rotate_180_270 h w), (rotate_270_270 h w) by done.
    apply (Permutation_app_comm [_] [_; _; _]).
Qed.

(** C4.  On a decoded picture, a rectangle of pixels with at least one row
    and one column, the fingerprint of the picture turned by 0, 90, 180 or
    270 degrees is the fingerprint of the picture, for every hash size. *)
Theorem fingerprint_rotation_invariant h w g hash_size angle :
  0 < h → 0 < w → rectangular h w g →
  fingerprint phash (rotate g angle) hash_size = fingerprint phash g hash_size.
Proof.
  intros Hh Hw Hg. unfold fingerprint. f_equal.
  apply sorted_Permutation. by apply (rotation_hashes_turned h w).
Qed.
End Fingerprint.

Lemma fingerprint_rotation_invariant_witness :
  fingerprint sample_phash (rotate (pixels sample_image) deg90) 8
  = fingerprint sample_phash (pixels sample_image) 8.
Proof.
  apply (fingerprint_rotation_invariant sample_phash 2 3); [lia|lia|].
  split; [reflexivity|]. repeat constructor.
Defined.

(** ** Disposal *)

(** *** Paths and the trash *)

Lemma rsplit_slash_tail s h t :
  rsplit_slash s = Some (h, t) → rsplit_slash t = None.
Proof.
  revert h t. induction s as [|c s IH]; intros h t; [done|].
  cbn [rsplit_slash]. destruct (rsplit_slash s) as [[h' t']|] eqn:Hs.
  - intros [= <- <-]. by eapply IH.
  - destruct (Ascii.eqb c slash); [|done]. by intros [= <- <-].
Qed.

Lemma rsplit_slash_basename p : rsplit_slash (basename p) = None.
Proof.
  unfold basename. destruct (rsplit_slash p) as [[h t]|] eqn:Hp; [|done].
  by eapply rsplit_slash_tail.
Qed.

Lemma rsplit_slash_app s1 s2 :
  rsplit_slash s2 = None →
  rsplit_slash (s1 +:+ s2)
  = match rsplit_slash s1 with
    | Some (h, t) => Some (h, t +:+ s2)
    | None => None
    end.
Proof.
  intros Hs2. induction s1 as [|c s1 IH]; [done|].
  change (String c s1 +:+ s2) with (String c (s1 +:+ s2)).
  cbn [rsplit_slash]. rewrite IH.
  destruct (rsplit_slash s1) as [[h t]|]; [done|].
  by destruct (Ascii.eqb c slash).
Qed.

Lemma basename_trashed file_name :
  basename (trashed default_trash file_name) = basename file_name.
Proof.
  unfold trashed, basename at 1.
  by rewrite rsplit_slash_app by apply rsplit_slash_basename.
Qed.

Lemma trashed_trashed file_name :
  trashed default_trash (trashed default_trash file_name)
  = trashed default_trash file_name.
Proof. unfold trashed at 1. by rewrite basename_trashed. Qed.

(** *** Disposal of one picture *)

Lemma delete_first_ids file c :
  ∀ f, f ∈ _id <$> delete_first file c → f ∈ _id <$> c.
Proof.
  induction c as [|d c IH]; intros f; [done|]. cbn [delete_first].
  case_bool_decide; rewrite !fmap_cons, ?elem_of_cons; [by right|].
  intros [?|?]; [by left|right; by apply IH].
Qed.

Lemma delete_first_NoDup file c :
  NoDup (_id <$> c) → NoDup (_id <$> delete_first file c).
Proof.
  induction c as [|d c IH]; [done|]. cbn [delete_first]. rewrite fmap_cons.
  intros [Hd Hc]%NoDup_cons. case_bool_decide; [done|].
  rewrite fmap_cons. apply NoDup_cons. split; [|by apply IH].
  intros Hin. by apply Hd, (delete_first_ids file).
Qed.

Lemma delete_first_gone file c :
  NoDup (_id <$> c) → file ∉ _id <$> delete_first file c.
Proof.
  induction c as [|d c IH]; [intros _ ?%elem_of_nil; done|].
  cbn [delete_first]. rewrite fmap_cons. intros [Hd Hc]%NoDup_cons.
  case_bool_decide as Hid; [by rewrite <- Hid|].
  rewrite fmap_cons. intros [?|?]%elem_of_cons; [done|by apply IH].
Qed.

Lemma delete_first_other file c d :
  d ∈ c → _id d ≠ file → d ∈ delete_first file c.
Proof.
  induction c as [|d' c IH]; [done|]. cbn [delete_first].
  intros [->|Hin]%elem_of_cons Hne.
  - rewrite bool_decide_eq_false_2 by done. apply list_elem_of_here.
  - case_bool_decide; [done|]. apply list_elem_of_further. by apply IH.
Qed.

(** The start of [delete_picture]: the line on the console and the trash
    directory; it never raises. *)
Lemma prepare_trash_run file_name trash w :
  ∃ w1, (cprint ("Moving " +:+ file_name +:+ " to " +:+ trash) ;;
         present <- os_path_exists trash ;;
         if present : bool then ret tt else os_makedirs trash) w
        = (Return tt, w1) ∧
        images w1 = images w ∧ files w1 = files w.
Proof.
  unfold bind, cprint, os_path_exists, os_makedirs, ret.
  cbn [files dirs set_stdout].
  destruct (decide (trash ∈ dom (files w) ∨ trash ∈ dirs w)) as [Hyes|Hno].
  - rewrite bool_decide_eq_true_2 by done. eexists. by split.
  - rewrite !bool_decide_eq_false_2 by done. eexists. by split.
Qed.

Lemma delete_picture_unfold file_name trash w :
  delete_picture file_name trash w
  = bind (cprint ("Moving " +:+ file_name +:+ " to " +:+ trash) ;;
          present <- os_path_exists trash ;;
          if present : bool then ret tt else os_makedirs trash)
      (λ _, try_except
              (shutil_move file_name (trash +:+ basename file_name) ;;
               remove_image file_name ;; ret true)
              (λ e, match e with
                    | FileNotFoundError =>
                        cprint ("File not found " +:+ file_name) ;; ret false
                    | _ => cprint ("Error: " +:+ str e) ;; ret false
                    end)) w.
Proof.
  unfold delete_picture. rewrite !bind_assoc_run. done.
Qed.

Lemma delete_picture_missing file_name trash w :
  files w !! file_name = None →
  ∃ w', delete_picture file_name trash w = (Return false, w') ∧
        images w' = images w ∧ files w' = files w.
Proof.
  intros Hmiss. rewrite delete_picture_unfold.
  destruct (prepare_trash_run file_name trash w) as (w1 & Hprep & Himg & Hfiles).
  erewrite bind_run; [|exact Hprep].
  erewrite try_except_raise;
    [|erewrite bind_raise; [done|]; unfold shutil_move; by rewrite Hfiles, Hmiss].
  eexists. split; [reflexivity|]. by split.
Qed.

Lemma delete_picture_present file_name trash w d :
  files w !! file_name = Some d →
  ∃ w', delete_picture file_name trash w = (Return true, w') ∧
        images w' = delete_first file_name (images w) ∧
        files w' = <[trash +:+ basename file_name := d]> (delete file_name (files w)).
Proof.
  intros Hfile. rewrite delete_picture_unfold.
  destruct (prepare_trash_run file_name trash w) as (w1 & Hprep & Himg & Hfiles).
  erewrite bind_run; [|exact Hprep].
  assert ((shutil_move file_name (trash +:+ basename file_name) ;;
           remove_image file_name ;; ret true) w1
          = (Return true,
             set_images (delete_first file_name (images w1))
               (set_files (<[trash +:+ basename file_name := d]>
                             (delete file_name (files w1))) w1))) as Hbody.
  { unfold bind, shutil_move, remove_image, delete_one, ret.
    by rewrite Hfiles, Hfile. }
  rewrite (try_except_run _ _ _ _ _ Hbody).
  eexists. split; [reflexivity|]. cbn [images files set_files set_images].
  by rewrite Himg, Hfiles.
Qed.


Lemma kept_trans k w1 w2 w3 : kept k w1 w2 → kept k w2 w3 → kept k w1 w3.
Proof.
  intros [Hd12 Hf12] [Hd23 Hf23]. split.
  - intros d Hd Hk. apply Hd23; [|done]. by apply Hd12.
  - intros Hf. by apply Hf23, Hf12.
Qed.

(** One turn of the disposal loop. *)
Lemma delete_picture_step x w :
  NoDup (_id <$> images w) →
  ∃ ok w', delete_picture x default_trash w = (Return ok, w') ∧
    NoDup (_id <$> images w') ∧
    (∀ f, disposed f w → disposed f w') ∧
    (is_Some (files w !! x) → ok = true ∧ disposed x w') ∧
    (files w !! x = None → ok = false ∧ images w' = images w ∧ files w' = files w) ∧
    (∀ k, k ≠ x → kept k w w').
Proof.
  intros Hnd. destruct (files w !! x) as [d|] eqn:Hx.
  - destruct (delete_picture_present x default_trash w d Hx) as (w' & Hrun & Himg & Hfiles).
    exists true, w'. split; [done|].
    fold (trashed default_trash x) in Hfiles.
    split; [|split; [|split; [|split]]].
    + rewrite Himg. by apply delete_first_NoDup.
    + intros f (Hno & Hthere & Hown). split; [|split].
      * rewrite Himg. intros Hin. by apply Hno, (delete_first_ids x).
      * rewrite Hfiles.
        destruct (decide (trashed default_trash x = trashed default_trash f)) as [->|Hne].
        { by rewrite lookup_insert_eq. }
        rewrite lookup_insert_ne by done.
        destruct (decide (x = trashed default_trash f)) as [->|Hne'].
        { by rewrite trashed_trashed in Hne. }
        by rewrite lookup_delete_ne.
      * rewrite Hfiles.
        destruct (decide (trashed default_trash x = f)) as [<-|Hne].
        { intros _. by rewrite trashed_trashed. }
        rewrite lookup_insert_ne by done.
        destruct (decide (x = f)) as [->|Hne'].
        { rewrite lookup_delete_eq. by intros [? ?]. }
        by rewrite lookup_delete_ne.
    + intros _. split; [done|]. split; [|split].
      * rewrite Himg. by apply delete_first_gone.
      * by rewrite Hfiles, lookup_insert_eq.
      * rewrite Hfiles.
        destruct (decide (trashed default_trash x = x)) as [Heq|Hne]; [done|].
        rewrite lookup_insert_ne, lookup_delete_eq by done. by intros [? ?].
    + done.
    + intros k Hk. split.
      * intros d' Hd' Hid. rewrite Himg. apply delete_first_other; congruence.
      * rewrite Hfiles.
        destruct (decide (trashed default_trash x = k)) as [->|Hne].
        { by rewrite lookup_insert_eq. }
        by rewrite lookup_insert_ne, lookup_delete_ne.
  - destruct (delete_picture_missing x default_trash w Hx) as (w' & Hrun & Himg & Hfiles).
    exists false, w'. split; [done|].
    split; [|split; [|split; [|split]]].
    + by rewrite Himg.
    + intros f. unfold disposed. by rewrite Himg, Hfiles.
    + by intros [? ?].
    + done.
    + intros k _. unfold kept. by rewrite Himg, Hfiles.
Qed.

(** The whole loop: the list comprehension of [delete_duplicates]. *)
Lemma disposal_loop fs w :
  NoDup (_id <$> images w) →
  ∃ results w',
    comprehension fs (λ file_name, delete_picture file_name default_trash) w
    = (Return results, w') ∧
    length results = length fs ∧
    NoDup (_id <$> images w') ∧
    (∀ f, disposed f w → disposed f w') ∧
    (∀ f, f ∈ fs → is_Some (files w !! f) → disposed f w') ∧
    (∀ k, k ∉ fs → kept k w w').
Proof.
  revert w. induction fs as [|x fs IH]; intros w Hnd.
  - exists [], w. split; [done|]. split; [done|]. split; [done|]. split; [done|].
    split; [by intros f ?%elem_of_nil|]. by intros k _.
  - destruct (delete_picture_step x w Hnd)
      as (ok & w1 & Hrun & Hnd1 & Hkeep1 & Hx1 & _ & Hkept1).
    destruct (IH w1 Hnd1) as (results & w' & Hrest & Hlen & Hnd' & Hkeep & Hall & Hkept).
    exists (ok :: results), w'. split; [|split; [|split; [|split; [|split]]]].
    + cbn [comprehension]. erewrite bind_run; [|exact Hrun].
      by erewrite bind_run; [|exact Hrest].
    + simpl. by rewrite Hlen.
    + done.
    + intros f Hf. by apply Hkeep, Hkeep1.
    + intros f Hf Hdisk. destruct (decide (f = x)) as [->|Hne].
      * by apply Hkeep, Hx1.
      * apply elem_of_cons in Hf as [?|Hf]; [done|].
        apply Hall; [done|]. by apply (Hkept1 f Hne).
    + intros k Hk. apply not_elem_of_cons in Hk as [Hne Hk].
      eapply kept_trans; [by apply Hkept1|by apply Hkept].
Qed.


Lemma delete_duplicates_unfold duplicates w results w1 :
  comprehension (disposable duplicates)
    (λ file_name, delete_picture file_name default_trash) w = (Return results, w1) →
  delete_duplicates duplicates w
  = (Return tt, set_stdout (stdout w1 ++ [report results]) w1).
Proof. intros Hrun. unfold delete_duplicates. by erewrite bind_run. Qed.

Lemma NoDup_fmap_elem {A B} (f : A → B) (l : list A) x y :
  NoDup (f <$> l) → x ∈ l → y ∈ l → f x = f y → x = y.
Proof.
  induction l as [|z l IH]; [by intros _ ?%elem_of_nil|].
  rewrite fmap_cons. intros [Hz Hl]%NoDup_cons Hx Hy Hxy.
  apply elem_of_cons in Hx as [->|Hx]; apply elem_of_cons in Hy as [->|Hy].
  - done.
  - destruct Hz. rewrite Hxy. by apply list_elem_of_fmap_2.
  - destruct Hz. rewrite <- Hxy. by apply list_elem_of_fmap_2.
  - by apply IH.
Qed.


Lemma file_name_items (c : list document) (key : string) :
  Item.file_name <$> (item_of <$> filter (λ d, hash d = key) c)
  = _id <$> filter (λ d, hash d = key) c.
Proof. rewrite <- list_fmap_compose. by apply list_fmap_ext. Qed.









(** * Further properties *)

(** ** Indexing and removing, exactly *)

Lemma discovered_NoDup disk path : NoDup (discovered disk path).
Proof.
  unfold discovered. do 2 apply NoDup_filter. apply NoDup_fst_map_to_list.
Qed.


Lemma insert_results_fresh (results : list hashed) w :
  NoDup ((λ r : hashed, r.1.1.1.1) <$> results) →
  (∀ r, r ∈ results → r.1.1.1.1 ∉ _id <$> images w) →
  for_each results
    (λ '(file_, hash_, file_size, image_size, capture_time),
       _add_to_database file_ hash_ file_size image_size capture_time) w
  = (Return tt, set_images (images w ++ (document_of <$> results)) w).
Proof.
  revert w. induction results as [|[[[[file_ hash_] fsize] isize] ctime] results IH];
    intros w Hnd Hfresh.
  - cbn. rewrite app_nil_r. by destruct w.
  - rewrite fmap_cons in Hnd. apply NoDup_cons in Hnd as [Hhd Hnd].
    cbn [for_each]. erewrite bind_run;
      [|apply _add_to_database_fresh, (Hfresh _ (list_elem_of_here _ _))].
    rewrite IH; [|done|].
    + cbn. by rewrite <- app_assoc.
    + intros r Hr. cbn. rewrite fmap_app. intros [Hin|Hin]%elem_of_app.
      * by apply (Hfresh r (list_elem_of_further _ _ _ Hr)).
      * apply list_elem_of_singleton in Hin. cbn in Hin, Hhd.
        apply Hhd. rewrite <- Hin.
        exact (list_elem_of_fmap_2 (λ r : hashed, r.1.1.1.1) _ _ Hr).
Qed.

Section AddExact.
Variable phash : grid → Z → string.
Variable TAGS : gmap Z string.
Variable HASH_SIZE : Z.
Variable scheduler : list string → list nat.

Lemma new_results_keys w path :
  (λ r : hashed, r.1.1.1.1) <$> new_results phash TAGS HASH_SIZE w path
  = filter (λ f, is_Some (hash_file_result phash TAGS (files w) f HASH_SIZE))
      (filter (λ f, f ∉ _id <$> images w) (discovered (files w) path)).
Proof.
  apply omap_keys_filter. intros f r. apply hash_file_result_key.
Qed.

Lemma add_one_exact path num_processes w :
  ∃ w', add phash TAGS HASH_SIZE scheduler [path] num_processes w = (Return tt, w') ∧
        images w' = images w ++ (document_of <$> new_results phash TAGS HASH_SIZE w path) ∧
        files w' = files w ∧ dirs w' = dirs w.
Proof.
  set (w0 := set_stdout (stdout w ++ ["Hashing " +:+ path]) w).
  destruct (get_image_files_run path w0) as (w1 & Hfind & Hw1).
  change (files w0) with (files w) in Hfind.
  destruct (new_image_files_absent (discovered (files w) path) w1) as (w2 & Hnew & Hw2).
  assert (only_prints w w1) as Hww1 by (eapply only_prints_trans; [|exact Hw1]; done).
  assert (only_prints w w2) as Hww2 by (by eapply only_prints_trans).
  destruct Hww1 as (Hi1 & Hf1 & Hd1). rewrite Hi1 in Hnew.
  destruct (hash_files_parallel_run phash TAGS HASH_SIZE scheduler
              (filter (λ f, f ∉ _id <$> images w) (discovered (files w) path))
              num_processes w2) as (w3 & Hhash & Hw3).
  destruct Hww2 as (Hi2 & Hf2 & Hd2). rewrite Hf2 in Hhash.
  fold (new_results phash TAGS HASH_SIZE w path) in Hhash.
  destruct Hw3 as (Hi3 & Hf3 & Hd3).
  eexists. split; [|split; [|split]].
  - unfold add. cbn [for_each]. rewrite bind_unit_r.
    unfold bind at 1. unfold cprint at 1. fold w0.
    erewrite bind_run; [|exact Hfind].
    erewrite bind_run; [|exact Hnew].
    erewrite bind_run; [|exact Hhash].
    erewrite bind_run; [reflexivity|]. apply insert_results_fresh.
    + rewrite new_results_keys. do 2 apply NoDup_filter. apply discovered_NoDup.
    + intros r Hr. rewrite Hi3, Hi2.
      pose proof (list_elem_of_fmap_2 (λ r : hashed, r.1.1.1.1) _ _ Hr) as Hk.
      rewrite new_results_keys in Hk.
      apply list_elem_of_filter in Hk as [_ Hk].
      by apply list_elem_of_filter in Hk as [Hk _].
  - cbn. by rewrite Hi3, Hi2.
  - cbn. by rewrite Hf3, Hf2.
  - cbn. by rewrite Hd3, Hd2.
Qed.

Lemma new_results_sound w path r :
  r ∈ new_results phash TAGS HASH_SIZE w path →
  (r.1.1.1.1 ∉ _id <$> images w) ∧
  r.1.1.1.1 ∈ discovered (files w) path ∧
  hash_file_result phash TAGS (files w) r.1.1.1.1 HASH_SIZE = Some r.
Proof.
  intros (f & [Hfresh Hf]%list_elem_of_filter & Hr)%list_elem_of_omap.
  by rewrite (hash_file_result_key _ _ _ _ _ _ Hr).
Qed.

Lemma document_of_ids (rs : list hashed) :
  _id <$> (document_of <$> rs) = (λ r : hashed, r.1.1.1.1) <$> rs.
Proof. rewrite <- list_fmap_compose. by apply list_fmap_ext. Qed.

(** What [add] does to the store, exactly. *)
Lemma add_appends_run paths num_processes w :
  ∃ w' new,
    add phash TAGS HASH_SIZE scheduler paths num_processes w = (Return tt, w') ∧
    images w' = images w ++ (document_of <$> new) ∧
    files w' = files w ∧ dirs w' = dirs w ∧
    NoDup ((λ r : hashed, r.1.1.1.1) <$> new) ∧
    ∀ r, r ∈ new →
      (r.1.1.1.1 ∉ _id <$> images w) ∧
      r.1.1.1.1 ∈ discovered_in (files w) paths ∧
      hash_file_result phash TAGS (files w) r.1.1.1.1 HASH_SIZE = Some r.
Proof.
  revert w. induction paths as [|path paths IH]; intros w.
  - exists w, []. split; [done|]. rewrite app_nil_r. split; [done|].
    split; [done|]. split; [done|]. split; [constructor|].
    by intros r ?%elem_of_nil.
  - destruct (add_one_exact path num_processes w) as (w1 & Hone & Hi1 & Hf1 & Hd1).
    destruct (IH w1) as (w' & new2 & Hrest & Hi' & Hf' & Hd' & Hnd2 & Hnew2).
    exists w', (new_results phash TAGS HASH_SIZE w path ++ new2).
    split; [|split; [|split; [|split; [|split]]]].
    + rewrite add_cons. by erewrite bind_run.
    + by rewrite Hi', Hi1, fmap_app, app_assoc.
    + by rewrite Hf', Hf1.
    + by rewrite Hd', Hd1.
    + rewrite fmap_app. apply NoDup_app. split; [|split; [|done]].
      * rewrite new_results_keys. do 2 apply NoDup_filter. apply discovered_NoDup.
      * intros k Hk1 (r & -> & Hr)%list_elem_of_fmap.
        destruct (Hnew2 r Hr) as (Hfresh & _). apply Hfresh.
        rewrite Hi1, fmap_app, document_of_ids. apply elem_of_app. by right.
    + intros r [Hr|Hr]%elem_of_app.
      * destruct (new_results_sound w path r Hr) as (? & ? & ?).
        split; [done|]. split; [|done].
        apply list_elem_of_bind. exists path. split; [done|apply list_elem_of_here].
      * destruct (Hnew2 r Hr) as (Hfresh & Hin & Hres). rewrite Hf1 in Hin, Hres.
        split; [|split; [|done]].
        -- intros Hold. apply Hfresh. rewrite Hi1, fmap_app. apply elem_of_app. by left.
        -- apply list_elem_of_bind in Hin as (p & Hp & Hin).
           apply list_elem_of_bind. exists p. split; [done|by apply list_elem_of_further].
Qed.
End AddExact.

(** ** Removing records *)




Lemma delete_first_app_r file old new :
  file ∉ _id <$> old → delete_first file (old ++ new) = old ++ delete_first file new.
Proof.
  induction old as [|d old IH]; [done|]. rewrite fmap_cons.
  intros Hnot. apply not_elem_of_cons in Hnot as [Hne Hnot].
  cbn [delete_first app]. rewrite bool_decide_eq_false_2 by done. by rewrite IH.
Qed.




Lemma without_ids fs c f : f ∈ _id <$> without fs c → f ∈ _id <$> c.
Proof.
  revert c. induction fs as [|g fs IH]; intros c; [done|].
  cbn [without foldl]. intros Hin. by apply (delete_first_ids g), IH.
Qed.

Lemma without_NoDup fs c : NoDup (_id <$> c) → NoDup (_id <$> without fs c).
Proof.
  revert c. induction fs as [|g fs IH]; intros c Hnd; [done|].
  cbn [without foldl]. by apply IH, delete_first_NoDup.
Qed.

Lemma for_each_remove_image fs w :
  for_each fs remove_image w = (Return tt, set_images (without fs (images w)) w).
Proof.
  revert w. induction fs as [|f fs IH]; intros w; [by destruct w|].
  cbn [for_each]. unfold bind at 1, remove_image at 1, delete_one at 1.
  by rewrite IH.
Qed.

Lemma remove_run paths w :
  ∃ w', remove paths w = (Return tt, w') ∧
        images w' = without (discovered_in (files w) paths) (images w) ∧
        files w' = files w ∧ dirs w' = dirs w.
Proof.
  revert w. induction paths as [|path paths IH]; intros w.
  - by exists w.
  - destruct (get_image_files_run path w) as (w1 & Hfind & Hi1 & Hf1 & Hd1).
    set (w2 := set_images (without (discovered (files w) path) (images w1)) w1).
    destruct (IH w2) as (w' & Hrest & Hi' & Hf' & Hd').
    exists w'. split; [|split; [|split]].
    + unfold remove in *. cbn [for_each].
      unfold bind at 1. erewrite bind_run; [|exact Hfind].
      rewrite for_each_remove_image. exact Hrest.
    + rewrite Hi'. cbn. rewrite Hf1, Hi1. unfold discovered_in, without. cbn.
      by rewrite foldl_app.
    + rewrite Hf'. cbn. done.
    + rewrite Hd'. cbn. done.
Qed.

Section StoreProperties.
Variable phash : grid → Z → string.
Variable TAGS : gmap Z string.
Variable HASH_SIZE : Z.
Variable scheduler : list string → list nat.

(** X1.  [_id] stays a key of the store under every operation that writes to
    it: inserting, indexing, removing, clearing and disposing. *)
Theorem store_key_is_kept w :
  NoDup (_id <$> images w) →
  (∀ file_ hash_ fsize isize ctime,
     NoDup (_id <$> images (_add_to_database file_ hash_ fsize isize ctime w).2)) ∧
  (∀ paths num_processes,
     NoDup (_id <$> images (add phash TAGS HASH_SIZE scheduler paths num_processes w).2)) ∧
  (∀ paths, NoDup (_id <$> images (remove paths w).2)) ∧
  (∀ file, NoDup (_id <$> images (remove_image file w).2)) ∧
  NoDup (_id <$> images (clear w).2) ∧
  (∀ file_name trash, NoDup (_id <$> images (delete_picture file_name trash w).2)) ∧
  (∀ duplicates, NoDup (_id <$> images (delete_duplicates duplicates w).2)).
Proof.
  intros Hnd. split_and!.
  - intros file_ hash_ fsize isize ctime.
    destruct (decide (file_ ∈ _id <$> images w)) as [Hin|Hnot].
    + by rewrite _add_to_database_present.
    + rewrite _add_to_database_fresh by done. cbn. rewrite fmap_app.
      apply NoDup_app. split; [done|]. split; [|apply NoDup_singleton].
      intros k Hk ->%list_elem_of_singleton. done.
  - intros paths num_processes.
    destruct (add_appends_run phash TAGS HASH_SIZE scheduler paths num_processes w)
      as (w' & new & -> & Hi & _ & _ & Hnew & Hfresh).
    cbn. rewrite Hi, fmap_app, document_of_ids. apply NoDup_app.
    split; [done|]. split; [|done].
    intros k Hk (r & -> & Hr)%list_elem_of_fmap. by destruct (Hfresh r Hr) as [? _].
  - intros paths. destruct (remove_run paths w) as (w' & -> & Hi & _).
    cbn. rewrite Hi. by apply without_NoDup.
  - intros file. by apply delete_first_NoDup.
  - constructor.
  - intros file_name trash. destruct (files w !! file_name) as [d|] eqn:Hfile.
    + destruct (delete_picture_present _ trash _ _ Hfile) as (w' & -> & Hi & _).
      cbn. rewrite Hi. by apply delete_first_NoDup.
    + destruct (delete_picture_missing _ trash _ Hfile) as (w' & -> & Hi & _).
      cbn. by rewrite Hi.
  - intros duplicates.
    destruct (disposal_loop (disposable duplicates) w Hnd)
      as (results & w1 & Hrun & _ & Hnd1 & _).
    by rewrite (delete_duplicates_unfold _ _ _ _ Hrun).
Qed.



End StoreProperties.

Lemma store_key_is_kept_witness :
  NoDup (_id <$> images (remove_image "/pics/B.jpg" abc_on_disk).2).
Proof.
  assert (NoDup (_id <$> images abc_on_disk)) as Hnd.
  { apply (bool_decide_unpack _). vm_compute. exact I. }
  destruct (store_key_is_kept sample_phash sample_TAGS 8 (λ _, []) abc_on_disk Hnd)
    as (_ & _ & _ & Hremove & _).
  apply Hremove.
Defined.




(** ** Capture times *)

Lemma one_value_size (l : list string) :
  (size (list_to_set l : gset string) ≤ 1)%nat ↔ ∀ x y, x ∈ l → y ∈ l → x = y.
Proof.
  split.
  - intros Hsize x y Hx Hy. destruct (decide (x = y)) as [|Hne]; [done|].
    assert (size ({[x]} ∪ {[y]} : gset string) ≤ size (list_to_set l : gset string))%nat
      as Hle.
    { apply subseteq_size. intros z [Hz|Hz]%elem_of_union;
        apply elem_of_singleton in Hz as ->; by apply elem_of_list_to_set. }
    rewrite size_union, !size_singleton in Hle; [lia|].
    intros z Hz1%elem_of_singleton Hz2%elem_of_singleton. congruence.
  - intros Hone. destruct l as [|x l]; [by rewrite list_to_set_nil, size_empty; lia|].
    assert (size (list_to_set (x :: l) : gset string) ≤ size ({[x]} : gset string))%nat
      as Hle.
    { apply subseteq_size. intros z Hz%elem_of_list_to_set.
      apply elem_of_singleton. apply Hone; [done|apply list_elem_of_here]. }
    by rewrite size_singleton in Hle.
Qed.

Lemma same_time_spec dup :
  same_time dup = true ↔
  ∀ i j, i ∈ Group.items dup → j ∈ Group.items dup →
         Item.capture_time i = Item.capture_time j.
Proof.
  rewrite same_time_counts, negb_true_iff, bool_decide_eq_false.
  rewrite Nat.nlt_ge, one_value_size. split.
  - intros Hone i j Hi Hj. apply Hone; by apply list_elem_of_fmap_2.
  - intros Hone x y (i & -> & Hi)%list_elem_of_fmap (j & -> & Hj)%list_elem_of_fmap.
    by apply Hone.
Qed.

(** ** The clusters of [find] *)

Lemma find_groups (match_time : bool) (w : world) (g : Group.t) :
  g ∈ (let dups := filter (λ g, 1 < Group.total g)%nat (group_by_hash (images w)) in
       if match_time then filter (λ d, same_time d = true) dups else dups) →
  g ∈ group_by_hash (images w) ∧ (1 < Group.total g)%nat ∧ group_of (images w) g.
Proof.
  cbv zeta. intros Hg.
  assert (g ∈ filter (λ g, 1 < Group.total g)%nat (group_by_hash (images w)))
    as [Hgt Hin]%list_elem_of_filter.
  { destruct match_time; [|done]. by apply list_elem_of_filter in Hg as [_ ?]. }
  split; [done|]. split; [done|].
  destruct (group_by_hash_spec (images w)) as (_ & Hall & _).
  by eapply Forall_forall in Hall.
Qed.

Lemma group_names c g :
  group_of c g →
  Item.file_name <$> Group.items g = _id <$> filter (λ d, hash d = Group._id g) c.
Proof. intros [-> _]. apply file_name_items. Qed.

(** Two different entries of a list make it longer than one. *)
Lemma two_elements {A} (l : list A) x y :
  x ∈ l → y ∈ l → x ≠ y → (1 < length l)%nat.
Proof.
  destruct l as [|a [|b l]]; simpl; [by intros ?%elem_of_nil| |lia].
  intros ->%list_elem_of_singleton ->%list_elem_of_singleton. done.
Qed.

(** A list without repetition that is longer than one has an entry other than
    any given one. *)
Lemma another_element `{EqDecision A} (l : list A) x :
  NoDup l → (1 < length l)%nat → ∃ y, y ∈ l ∧ y ≠ x.
Proof.
  destruct l as [|a [|b l]]; simpl; [lia|lia|]. intros Hnd _.
  apply NoDup_cons in Hnd as [Hab _].
  destruct (decide (a = x)) as [->|Hne].
  - exists b. split; [apply list_elem_of_further, list_elem_of_here|].
    intros ->. apply Hab, list_elem_of_here.
  - exists a. split; [apply list_elem_of_here|done].
Qed.

Section Clusters.
Variable w : world.
Hypothesis store_key : NoDup (_id <$> images w).

Lemma hash_names_NoDup key :
  NoDup (_id <$> filter (λ d, hash d = key) (images w)).
Proof.
  eapply sublist_NoDup; [exact store_key|]. apply fmap_sublist, sublist_filter.
Qed.

Lemma members_NoDup match_time dups :
  find match_time w = (Return dups, w) → NoDup (members dups).
Proof.
  rewrite find_run. intros [= <-].
  destruct (group_by_hash_spec (images w)) as (Hkeys & _ & _).
  apply NoDup_bind.
  - intros g1 g2 f (Hin1 & _ & Hg1)%find_groups (Hin2 & _ & Hg2)%find_groups.
    rewrite (group_names _ _ Hg1), (group_names _ _ Hg2).
    intros (d1 & -> & [Hh1 Hd1]%list_elem_of_filter)%list_elem_of_fmap
           (d2 & Hid & [Hh2 Hd2]%list_elem_of_filter)%list_elem_of_fmap.
    assert (d1 = d2) as <- by by eapply (NoDup_fmap_elem _id).
    eapply (NoDup_fmap_elem Group._id); [exact Hkeys|done..|congruence].
  - intros g (_ & _ & Hg)%find_groups. rewrite (group_names _ _ Hg).
    apply hash_names_NoDup.
  - cbv zeta.
    assert (NoDup (filter (λ g, 1 < Group.total g)%nat (group_by_hash (images w))))
      as Hnd.
    { apply NoDup_filter. by apply NoDup_fmap_1 in Hkeys. }
    destruct match_time; [by apply NoDup_filter|done].
Qed.

Lemma member_iff_shared_hash dups d :
  find false w = (Return dups, w) → d ∈ images w →
  _id d ∈ members dups ↔ ∃ d', d' ∈ images w ∧ d' ≠ d ∧ hash d' = hash d.
Proof.
  rewrite find_run. intros [= <-] Hd.
  destruct (group_by_hash_spec (images w)) as (Hkeys & Hall & Hcov).
  split.
  - intros (g & Hname & Hg)%list_elem_of_bind.
    apply (find_groups false) in Hg as (_ & Hgt & Hg).
    pose proof Hg as [Hitems Htotal].
    rewrite (group_names _ _ Hg) in Hname.
    apply list_elem_of_fmap in Hname as (d0 & Hid & [Hh0 Hd0]%list_elem_of_filter).
    assert (d = d0) as <- by by eapply (NoDup_fmap_elem _id).
    destruct (another_element (_id <$> filter (λ d, hash d = Group._id g) (images w))
                (_id d)) as (y & Hy & Hne).
    { apply hash_names_NoDup. }
    { by rewrite length_fmap, <- (length_fmap item_of), <- Hitems, <- Htotal. }
    apply list_elem_of_fmap in Hy as (d' & -> & [Hh' Hd']%list_elem_of_filter).
    exists d'. split; [done|]. split; [congruence|congruence].
  - intros (d' & Hd' & Hne & Hh).
    apply Hcov in Hd as Hkey.
    apply list_elem_of_fmap in Hkey as (g & Hkey & Hg).
    eapply Forall_forall in Hall as Hof; [|exact Hg].
    apply list_elem_of_bind. exists g. split.
    + rewrite (group_names _ _ Hof). apply list_elem_of_fmap_2.
      apply list_elem_of_filter. by split.
    + apply list_elem_of_filter. split; [|done].
      destruct Hof as [Hitems ->]. rewrite Hitems, length_fmap.
      apply (two_elements _ d' d); [..|done];
        apply list_elem_of_filter; split; congruence.
Qed.

End Clusters.

Lemma members_filter (P : Group.t → Prop) `{∀ g, Decision (P g)} dups f :
  f ∈ members (filter P dups) → f ∈ members dups.
Proof.
  intros (g & Hf & [_ Hg]%list_elem_of_filter)%list_elem_of_bind.
  apply list_elem_of_bind. by exists g.
Qed.

(** X5.  [same_time] accepts a cluster exactly when all its members carry one
    and the same capture time, so that a member without a capture time makes
    it reject a cluster whose other members have one. *)
Theorem same_time_iff_one_capture_time dup :
  (same_time dup = true ↔
   ∀ i j, i ∈ Group.items dup → j ∈ Group.items dup →
          Item.capture_time i = Item.capture_time j) ∧
  (∀ i j, i ∈ Group.items dup → j ∈ Group.items dup →
          Item.capture_time i = "Time unknown" →
          Item.capture_time j ≠ "Time unknown" → same_time dup = false).
Proof.
  split; [apply same_time_spec|].
  intros i j Hi Hj Hunknown Hknown. apply not_true_is_false.
  intros Hsame. apply Hknown. rewrite <- Hunknown. symmetry.
  by apply (proj1 (same_time_spec dup)).
Qed.

Lemma same_time_iff_one_capture_time_witness :
  same_time abc_cluster = true.
Proof.
  apply (proj1 (same_time_iff_one_capture_time abc_cluster)).
  intros i j Hi Hj. vm_compute in Hi, Hj.
  repeat (apply elem_of_cons in Hi as [->|Hi]); [..|by apply elem_of_nil in Hi];
    repeat (apply elem_of_cons in Hj as [->|Hj]); try reflexivity;
    by apply elem_of_nil in Hj.
Defined.

(** X6.  In a store keyed by file, the clusters of [find] name every file at
    most once; a file named in a cluster shares its fingerprint with another
    record, and without [match_time] every such file is named. *)
Theorem find_clusters_partition w :
  NoDup (_id <$> images w) →
  ∀ match_time, ∃ dups,
    find match_time w = (Return dups, w) ∧
    NoDup (members dups) ∧
    (∀ d, d ∈ images w → _id d ∈ members dups →
          ∃ d', d' ∈ images w ∧ d' ≠ d ∧ hash d' = hash d) ∧
    (match_time = false →
     ∀ d d', d ∈ images w → d' ∈ images w → d' ≠ d → hash d' = hash d →
             _id d ∈ members dups).
Proof.
  intros Hnd match_time. eexists. split; [apply find_run|].
  split; [by apply (members_NoDup w Hnd match_time), find_run|]. split.
  - intros d Hd Hin.
    apply (member_iff_shared_hash w Hnd _ d (find_run false w) Hd).
    cbv zeta in *. destruct match_time; [|done]. by apply members_filter in Hin.
  - intros -> d d' Hd Hd' Hne Hh.
    apply (member_iff_shared_hash w Hnd _ d (find_run false w) Hd). eauto.
Qed.

Lemma find_clusters_partition_witness :
  ∃ dups, find false three_record_store = (Return dups, three_record_store) ∧
          "/pics/a.jpg" ∈ members dups.
Proof.
  assert (NoDup (_id <$> images three_record_store)) as Hnd.
  { apply (bool_decide_unpack _). vm_compute. exact I. }
  destruct (find_clusters_partition three_record_store Hnd false)
    as (dups & Hrun & _ & _ & Hall).
  exists dups. split; [exact Hrun|].
  apply (Hall eq_refl (record "/pics/a.jpg" "ABCD" "2020:01:01")
              (record "/pics/c.jpg" "ABCD" "2020:01:01")).
  - apply list_elem_of_here.
  - do 2 apply list_elem_of_further. apply list_elem_of_here.
  - intros Heq. apply (f_equal _id) in Heq. vm_compute in Heq. discriminate.
  - reflexivity.
Defined.

(** X7.  With [match_time], [find] returns those clusters of the plain
    [find] whose records all carry the same capture time, and no other. *)
Theorem find_match_time_selects w :
  ∃ every some,
    find false w = (Return every, w) ∧ find true w = (Return some, w) ∧
    ∀ g, g ∈ some ↔
         g ∈ every ∧
         ∀ d1 d2, d1 ∈ images w → d2 ∈ images w →
                  hash d1 = Group._id g → hash d2 = Group._id g →
                  capture_time d1 = capture_time d2.
Proof.
  eexists _, _. split; [apply find_run|]. split; [apply find_run|].
  cbv zeta iota. intros g.
  rewrite list_elem_of_filter, same_time_spec.
  split.
  - intros [Hsame Hg]. split; [done|].
    apply (find_groups false) in Hg as (_ & _ & [Hitems _]).
    intros d1 d2 Hd1 Hd2 Hh1 Hh2.
    apply (Hsame (item_of d1) (item_of d2)); rewrite Hitems;
      apply list_elem_of_fmap_2, list_elem_of_filter; by split.
  - intros [Hg Hdocs]. split; [|done].
    apply (find_groups false) in Hg as (_ & _ & [Hitems _]).
    rewrite Hitems.
    intros i j (d1 & -> & [Hh1 Hd1]%list_elem_of_filter)%list_elem_of_fmap
               (d2 & -> & [Hh2 Hd2]%list_elem_of_filter)%list_elem_of_fmap.
    by apply Hdocs.
Qed.

(** X8.  [clear] drops every record and nothing else; afterwards no file is
    in the store, [find] has no cluster to return, and a second [clear]
    changes nothing. *)
Theorem clear_empties_store w :
  ∃ w', clear w = (Return tt, w') ∧
    images w' = [] ∧ files w' = files w ∧ dirs w' = dirs w ∧ stdout w' = stdout w ∧
    (∀ file, _in_database file w' = (Return false, w')) ∧
    (∀ match_time, find match_time w' = (Return [], w')) ∧
    clear w' = (Return tt, w').
Proof.
  eexists. split; [reflexivity|]. do 4 (split; [reflexivity|]).
  split; [|split; [|reflexivity]].
  - intros file. rewrite _in_database_run. cbn [images set_images].
    rewrite bool_decide_eq_false_2; [done|]. apply not_elem_of_nil.
  - intros match_time. rewrite find_run. by destruct match_time.
Qed.

(** ** Disposal: what a successful move leaves behind *)








(** ** Disposal of the clusters [find] returns *)




Section Keepers.
Variable c : list document.
Hypothesis store_key : NoDup (_id <$> c).



End Keepers.




(** ** The store, one record at a time *)

(** X12.  After [_add_to_database] the file is in the store, whether the
    record was inserted or refused, and the check on any other file answers
    as before; [remove_image] undoes a fresh insertion, and on a keyed store
    the file is not in the store after it. *)
Theorem insert_then_lookup file_ hash_ fsize isize ctime w :
  ∃ w1, _add_to_database file_ hash_ fsize isize ctime w = (Return tt, w1) ∧
    _in_database file_ w1 = (Return true, w1) ∧
    (∀ f, f ≠ file_ → (_in_database f w1).1 = (_in_database f w).1) ∧
    (file_ ∉ _id <$> images w →
       ∃ w2, remove_image file_ w1 = (Return tt, w2) ∧ images w2 = images w) ∧
    (NoDup (_id <$> images w) →
       ∃ w2, remove_image file_ w1 = (Return tt, w2) ∧
             _in_database file_ w2 = (Return false, w2)).
Proof.
  destruct (decide (file_ ∈ _id <$> images w)) as [Hin|Hnot].
  - eexists. split; [by apply _add_to_database_present|].
    rewrite !_in_database_run. cbn [images set_stdout]. split_and!.
    + by rewrite bool_decide_eq_true_2.
    + intros f _. by rewrite !_in_database_run.
    + done.
    + intros Hnd. eexists. split; [reflexivity|].
      rewrite _in_database_run. cbn [images set_images set_stdout].
      rewrite bool_decide_eq_false_2; [done|]. by apply delete_first_gone.
  - eexists. split; [by apply _add_to_database_fresh|].
    rewrite !_in_database_run. cbn [images set_images].
    assert (delete_first file_
              (images w ++ [ {| _id := file_; hash := hash_; file_size := fsize;
                                image_size := isize; capture_time := ctime |} ])
            = images w) as Hback.
    { rewrite delete_first_app_r by done. cbn [delete_first _id].
      by rewrite bool_decide_eq_true_2, app_nil_r. }
    split_and!.
    + rewrite bool_decide_eq_true_2; [done|].
      rewrite fmap_app. apply elem_of_app. right. apply list_elem_of_here.
    + intros f Hne. rewrite !_in_database_run. cbn [images set_images fst].
      f_equal. apply bool_decide_ext. rewrite fmap_app, elem_of_app.
      split; [|by left]. intros [?|Hf]; [done|].
      by apply list_elem_of_singleton in Hf.
    + intros _. eexists. split; [reflexivity|]. cbn [images set_images]. exact Hback.
    + intros _. eexists. split; [reflexivity|].
      rewrite _in_database_run. cbn [images set_images]. rewrite Hback.
      by rewrite bool_decide_eq_false_2.
Qed.

Lemma insert_then_lookup_witness :
  ∃ w1 w2,
    _add_to_database "/pics/D.jpg" "WXYZ" 7 "4 x 3" "Time unknown" abc_on_disk
    = (Return tt, w1) ∧
    remove_image "/pics/D.jpg" w1 = (Return tt, w2) ∧
    images w2 = images abc_on_disk.
Proof.
  destruct (insert_then_lookup "/pics/D.jpg" "WXYZ" 7 "4 x 3" "Time unknown"
              abc_on_disk) as (w1 & Hrun & _ & _ & Hfresh & _).
  destruct Hfresh as (w2 & Hremove & Hback).
  { intros Hin. apply (bool_decide_pack _) in Hin. vm_compute in Hin. exact Hin. }
  exists w1, w2. by repeat split.
Defined.

(** ** Hash-size normalization, continued *)

(** X13.  Below zero [next_power_of_2] raises [ValueError].  From one up to
    the range where the double logarithm is exact its result is less than
    twice the request and is mapped to itself; it grows with the request. *)
Theorem next_power_of_2_range :
  (∀ x, (x < 0)%Z → next_power_of_2 x = Raise ValueError) ∧
  (∀ x, (1 ≤ x < 2 ^ 48)%Z →
     ∃ r, next_power_of_2 x = Return r ∧ (x ≤ r < 2 * x)%Z ∧
          next_power_of_2 r = Return r) ∧
  (∀ x y, (0 ≤ x ≤ y)%Z → (y < 2 ^ 48)%Z →
     ∃ r s, next_power_of_2 x = Return r ∧ next_power_of_2 y = Return s ∧
            (r ≤ s)%Z).
Proof.
  split; [|split].
  - intros x Hx. unfold next_power_of_2.
    destruct (Z.eqb_spec x 0); [lia|]. by destruct (Z.ltb_spec x 0); [|lia].
  - intros x [Hx _]. exists (2 ^ Z.log2_up x)%Z.
    split; [apply next_power_of_2_pos; lia|].
    assert (0 < 2 ^ Z.log2_up x)%Z as Hpos
      by (apply Z.pow_pos_nonneg; [lia|apply Z.log2_up_nonneg]).
    split.
    + destruct (decide (x = 1%Z)) as [->|Hne]; [by vm_compute|].
      destruct (Z.log2_up_spec x) as [Hlo Hhi]; [lia|]. split; [done|].
      replace (Z.log2_up x) with (Z.succ (Z.pred (Z.log2_up x))) at 1 by lia.
      rewrite Z.pow_succ_r; [lia|].
      assert (0 < Z.log2_up x)%Z by (apply Z.log2_up_pos; lia). lia.
    + rewrite next_power_of_2_pos by done.
      by rewrite Z.log2_up_pow2 by apply Z.log2_up_nonneg.
  - intros x y [Hx Hxy] _.
    destruct (decide (x = 0%Z)) as [->|Hx0].
    + destruct (decide (y = 0%Z)) as [->|Hy0]; [by exists 1%Z, 1%Z|].
      exists 1%Z, (2 ^ Z.log2_up y)%Z. split; [done|].
      split; [apply next_power_of_2_pos; lia|].
      assert (0 < 2 ^ Z.log2_up y)%Z
        by (apply Z.pow_pos_nonneg; [lia|apply Z.log2_up_nonneg]). lia.
    + exists (2 ^ Z.log2_up x)%Z, (2 ^ Z.log2_up y)%Z.
      split; [apply next_power_of_2_pos; lia|].
      split; [apply next_power_of_2_pos; lia|].
      apply Z.pow_le_mono_r; [lia|]. by apply Z.log2_up_le_mono.
Qed.

Lemma next_power_of_2_range_witness :
  ∃ r, next_power_of_2 100 = Return r ∧ (100 ≤ r < 2 * 100)%Z ∧
       next_power_of_2 r = Return r.
Proof.
  apply (proj1 (proj2 next_power_of_2_range) 100%Z). lia.
Defined.

(** ** Metadata, continued *)

Section CaptureTime.
Variable TAGS : gmap Z string.

Lemma exif_by_name_snoc entries kv :
  exif_by_name TAGS (entries ++ [kv])
  = match TAGS !! kv.1 with
    | Some name => <[name := kv.2]> (exif_by_name TAGS entries)
    | None => exif_by_name TAGS entries
    end.
Proof. unfold exif_by_name. by rewrite foldl_app. Qed.

(** Entries under other names leave the value of a name as it is. *)
Lemma exif_by_name_others name entries rest :
  (∀ k v, (k, v) ∈ rest → TAGS !! k ≠ Some name) →
  exif_by_name TAGS (entries ++ rest) !! name = exif_by_name TAGS entries !! name.
Proof.
  induction rest as [|kv rest IH] using rev_ind; intros Hother.
  - by rewrite app_nil_r.
  - rewrite app_assoc, exif_by_name_snoc.
    assert (exif_by_name TAGS (entries ++ rest) !! name
            = exif_by_name TAGS entries !! name) as Hrest.
    { apply IH. intros k v Hin. apply (Hother k v), elem_of_app. by left. }
    destruct (TAGS !! kv.1) as [name'|] eqn:Htag; [|done].
    rewrite lookup_insert_ne; [done|]. intros ->.
    apply (Hother kv.1 kv.2); [|done].
    apply elem_of_app. right. destruct kv. apply list_elem_of_here.
Qed.

(** X14.  [get_capture_time] returns the value of the last EXIF entry whose
    tag is named [DateTimeOriginal], whatever that value is, and
    ["Time unknown"] when no entry has that name. *)
Theorem capture_time_of_last_entry img w :
  (∀ before k v after,
     exif img = ExifDict (before ++ (k, v) :: after) →
     TAGS !! k = Some "DateTimeOriginal" →
     (∀ k' v', (k', v') ∈ after → TAGS !! k' ≠ Some "DateTimeOriginal") →
     get_capture_time TAGS img w = (Return v, w)) ∧
  (∀ entries,
     exif img = ExifDict entries →
     (∀ k v, (k, v) ∈ entries → TAGS !! k ≠ Some "DateTimeOriginal") →
     get_capture_time TAGS img w = (Return "Time unknown", w)).
Proof.
  split.
  - intros before k v after Hexif Htag Hafter.
    rewrite get_capture_time_run, Hexif.
    change (before ++ (k, v) :: after) with (before ++ [(k, v)] ++ after).
    rewrite app_assoc, exif_by_name_others by done.
    rewrite exif_by_name_snoc. cbn [fst snd]. rewrite Htag.
    by rewrite lookup_insert_eq.
  - intros entries Hexif Hnone. rewrite get_capture_time_run, Hexif.
    rewrite <- (app_nil_l entries), exif_by_name_others by done.
    unfold exif_by_name. cbn [foldl]. by rewrite lookup_empty.
Qed.

End CaptureTime.

Lemma capture_time_of_last_entry_witness :
  get_capture_time sample_TAGS
    {| pixels := [[1]]%Z;
       exif := ExifDict [(271%Z, "ACME"); (36867%Z, "2020:01:01 10:00:00")] |}
    sample_disk
  = (Return "2020:01:01 10:00:00", sample_disk).
Proof.
  apply (proj1 (capture_time_of_last_entry sample_TAGS _ sample_disk)
           [(271%Z, "ACME")] 36867%Z "2020:01:01 10:00:00" []).
  - reflexivity.
  - vm_compute. reflexivity.
  - intros k' v' Hin. by apply elem_of_nil in Hin.
Defined.

(** ** File discovery, continued *)




(** ** Hashing one file, continued *)

Section HashFile.
Variable phash : grid → Z → string.
Variable TAGS : gmap Z string.


End HashFile.

(** ** The fingerprint, continued *)

Lemma append_inj_length s1 s2 t1 t2 :
  String.length s1 = String.length s2 → s1 +:+ t1 = s2 +:+ t2 → s1 = s2 ∧ t1 = t2.
Proof.
  revert s2. induction s1 as [|c s1 IH]; intros [|c' s2]; try done.
  simpl. intros [= Hlen] [= -> Happ]. destruct (IH s2 Hlen Happ) as [-> ->]. done.
Qed.

Lemma concat_empty_cons x xs :
  String.concat EmptyString (x :: xs) = x +:+ String.concat EmptyString xs.
Proof.
  destruct xs as [|y xs]; [|done]. cbn [String.concat].
  induction x as [|c x IH]; [done|].
  change (String c x +:+ EmptyString) with (String c (x +:+ EmptyString)). by f_equal.
Qed.

(** Strings of one length can be read off their concatenation. *)
Lemma concat_fixed_length_inj n l1 l2 :
  Forall (λ s, String.length s = n) l1 → Forall (λ s, String.length s = n) l2 →
  length l1 = length l2 →
  String.concat EmptyString l1 = String.concat EmptyString l2 → l1 = l2.
Proof.
  intros Hl1. revert l2. induction Hl1 as [|x l1 Hx Hl1 IH]; intros [|y l2]; try done.
  intros [Hy Hl2]%Forall_cons [= Hlen]. rewrite !concat_empty_cons.
  intros [-> Hrest]%append_inj_length; [|congruence].
  f_equal. by apply IH.
Qed.

Section FingerprintEq.
Variable phash : grid → Z → string.

(** X17.  When the perceptual hash is a string of fixed length, two pictures
    have the same fingerprint exactly when their four rotation hashes are
    the same up to order. *)
Theorem fingerprint_eq_iff hash_size n g1 g2 :
  (∀ g, String.length (phash g hash_size) = n) →
  fingerprint phash g1 hash_size = fingerprint phash g2 hash_size ↔
  rotation_hashes phash g1 hash_size ≡ₚ rotation_hashes phash g2 hash_size.
Proof.
  intros Hfixed. split; [|intros Hperm; unfold fingerprint; by rewrite (sorted_Permutation _ _ Hperm)].
  unfold fingerprint. intros Heq.
  assert (∀ g, Forall (λ s, String.length s = n)
                 (sorted (rotation_hashes phash g hash_size))) as Hall.
  { intros g. unfold sorted. rewrite merge_sort_Permutation.
    unfold rotation_hashes. apply Forall_fmap, Forall_forall. intros a _. cbn.
    destruct (0 <? degrees a)%Z; apply Hfixed. }
  apply concat_fixed_length_inj with (n := n) in Heq; [|apply Hall..|].
  - unfold sorted in Heq.
    rewrite <- (merge_sort_Permutation String.le (rotation_hashes phash g1 hash_size)).
    rewrite Heq. apply merge_sort_Permutation.
  - unfold sorted. by rewrite !merge_sort_Permutation.
Qed.

End FingerprintEq.

Lemma fingerprint_eq_iff_witness :
  fingerprint parity_phash [[1; 2]; [3; 4]]%Z 8
  = fingerprint parity_phash [[2; 4]; [1; 3]]%Z 8.
Proof.
  apply (fingerprint_eq_iff parity_phash 8 1 [[1; 2]; [3; 4]]%Z [[2; 4]; [1; 3]]%Z).
  - intros g. unfold parity_phash. by destruct (Z.even _).
  - apply (bool_decide_unpack _). vm_compute. exact I.
Defined.

(** ** From indexing to finding *)

Section Pipeline.
Variable phash : grid → Z → string.
Variable TAGS : gmap Z string.
Variable HASH_SIZE : Z.
Variable scheduler : list string → list nat.



End Pipeline.


(** ** The size on disk *)

